(** * paper_translator: the translation pipeline of [test1.py]

    A shallow embedding of [src/test1.py] (an arXiv search whose abstracts are
    translated by a local Ollama model) and the properties of its
    translation-request pipeline.

    Layout.
    - [Py]    Python [str] values (lists of code points) and the [str]
              builtins the script calls: [startswith], [strip], [replace].
    - [Utf8]  [bytes.decode('utf-8', errors=...)] as CPython implements it,
              and [str.encode('utf-8')].
    - [Json]  [json.loads] as the [json] module's scanner implements it.
    - the script itself: a state-and-exception monad over a [world] that
      records the HTTP requests issued, the files written and the pauses
      taken; [translate_text_with_ollama], [is_translation_error] and
      [search_and_translate_papers] keep their names.
    - the theorems, one per property of the specification.

    What is left out: the [print] calls, which write to the console (the
    branch on [is_translation_error] in the loop does nothing else) and can
    themselves raise when the console refuses a text; exceptions that are no
    [Exception], such as [KeyboardInterrupt]; [argparse]; a failing
    [f.write] for another reason than the encoding; and, in [json.loads],
    CPython's limits on nesting depth and on the digits of an integer, past
    which it raises [RecursionError] or [ValueError]. What the properties
    below say of the result of a call holds for a console that takes every
    text, a run that is not interrupted, and bodies within those limits. *)

From Stdlib Require Import Strings.String Strings.Ascii Strings.Byte.
From Stdlib Require Import List NArith ZArith Bool Arith Lia.
Import ListNotations.

Local Open Scope N_scope.

(* ================================================================== *)
(** * Python strings *)
(* ================================================================== *)

Module Py.

(** A Python [str] is a sequence of Unicode code points. *)
Definition str : Type := list N.

(** Code point of an ASCII character, to write [chr "{"] in the models. *)
Definition chr (a : ascii) : N := N_of_ascii a.

(** [s.startswith(prefix)] *)
Fixpoint startswith (s prefix : str) {struct prefix} : bool :=
  match prefix with
  | [] => true
  | p :: prefix' =>
      match s with
      | [] => false
      | c :: s' => (c =? p) && startswith s' prefix'
      end
  end.

(** [str.isspace] on one code point: CPython's [_PyUnicode_IsWhitespace]. *)
Definition isspace (c : N) : bool :=
  ((0x09 <=? c) && (c <=? 0x0D)) || ((0x1C <=? c) && (c <=? 0x20))
  || (c =? 0x85) || (c =? 0xA0) || (c =? 0x1680)
  || ((0x2000 <=? c) && (c <=? 0x200A))
  || (c =? 0x2028) || (c =? 0x2029) || (c =? 0x202F) || (c =? 0x205F)
  || (c =? 0x3000).

Fixpoint lstrip (s : str) : str :=
  match s with
  | [] => []
  | c :: s' => if isspace c then lstrip s' else s
  end.

Definition rstrip (s : str) : str := rev (lstrip (rev s)).

(** [s.strip()] with no argument: whitespace removed at both ends. *)
Definition strip (s : str) : str := rstrip (lstrip s).

(** The scan of [s.replace(old, new)] for a non-empty [old]: left to right,
    every occurrence of [old] that does not overlap an earlier one becomes
    [new]. [skip] counts the characters of the occurrence just matched that
    are still to be passed over, which keeps the recursion structural. *)
Fixpoint replace_from (old new : str) (skip : nat) (s : str) : str :=
  match s with
  | [] => []
  | c :: s' =>
      match skip with
      | S k => replace_from old new k s'
      | O =>
          if startswith s old
          then new ++ replace_from old new (Nat.pred (length old)) s'
          else c :: replace_from old new O s'
      end
  end.

(** [s.replace(old, new)]. With an empty [old] Python puts [new] before
    every character and at the end. *)
Definition replace (s old new : str) : str :=
  match old with
  | [] => new ++ flat_map (fun c => c :: new) s
  | _ :: _ => replace_from old new O s
  end.

(** [a == b] *)
Fixpoint eqb (a b : str) : bool :=
  match a, b with
  | [], [] => true
  | x :: a', y :: b' => (x =? y) && eqb a' b'
  | _, _ => false
  end.

(** [needle in s] *)
Fixpoint contains (s needle : str) : bool :=
  startswith s needle ||
  match s with
  | [] => false
  | _ :: s' => contains s' needle
  end.

End Py.
Export Py.

(** [l1] is [l2] with some of its elements left out. *)
Inductive subseq {A : Type} : list A -> list A -> Prop :=
| subseq_done : subseq [] []
| subseq_keep (x : A) (l1 l2 : list A) : subseq l1 l2 -> subseq (x :: l1) (x :: l2)
| subseq_drop (x : A) (l1 l2 : list A) : subseq l1 l2 -> subseq l1 (x :: l2).

(* ================================================================== *)
(** * Exceptions and results *)
(* ================================================================== *)

(** What [requests.post] can raise; every class derives from
    [requests.exceptions.RequestException]. *)
Inductive request_error : Type :=
| ConnectionError        (* connection refused, DNS failure, reset *)
| Timeout                (* no answer within the timeout *)
| HTTPError (status : N) (* raised by [raise_for_status] *)
| OtherRequestError.     (* any other subclass *)

(** The exceptions of the script. [FuelExhausted] is not a Python exception:
    it marks a run of the [Utf8] or [Json] model that used up its recursion
    budget. [Utf8Facts.decode_never_starves] and
    [JsonFacts.loads_never_starves] show that it is never raised. *)
Inductive exn : Type :=
| RequestException (e : request_error)
| JSONDecodeError
| UnicodeDecodeError
| UnicodeEncodeError
| AttributeError
| OSError
| FuelExhausted.

Inductive outcome (A : Type) : Type :=
| Returned (a : A)
| Raised (e : exn).
Arguments Returned {A} a.
Arguments Raised {A} e.

(** A scanner's result: a value and the unread input, a syntax error, or the
    budget used up. *)
Inductive scan (A : Type) : Type :=
| Ok (a : A) (rest : list N)
| Bad
| Starved.
Arguments Ok {A} a rest.
Arguments Bad {A}.
Arguments Starved {A}.

(* ================================================================== *)
(** * UTF-8 *)
(* ================================================================== *)

Module Utf8.

Definition bytes : Type := list byte.

(** The [errors] argument of [bytes.decode]. *)
Inductive errors_mode : Type := Strict | Ignore.

Definition is_continuation (b : N) : bool := (0x80 <=? b) && (b <? 0xC0).

(** One step of CPython's [utf8_decode] (Objects/stringlib/codecs.h): a
    decoded character, or the error it reports with the input that follows
    the bytes the error covers. *)
Inductive step : Type :=
| Char (ch : N) (rest : bytes)
| InvalidStart (rest : bytes)          (* covers one byte *)
| InvalidContinuation (rest : bytes)   (* covers the bytes before [rest] *)
| UnexpectedEnd.                       (* covers all the remaining bytes *)

Definition next (b1 : byte) (r1 : bytes) : step :=
  let ch := Byte.to_N b1 in
  if ch <? 0x80 then Char ch r1
  else if ch <? 0xC2 then InvalidStart r1
  else if ch <? 0xE0 then
    match r1 with
    | [] => UnexpectedEnd
    | b2 :: r2 =>
        let ch2 := Byte.to_N b2 in
        if is_continuation ch2
        then Char ((ch - 0xC0) * 64 + (ch2 - 0x80)) r2
        else InvalidContinuation r1
    end
  else if ch <? 0xF0 then
    match r1 with
    | [] => UnexpectedEnd
    | b2 :: r2 =>
        let ch2 := Byte.to_N b2 in
        if negb (is_continuation ch2)
           || (if ch2 <? 0xA0 then ch =? 0xE0 else ch =? 0xED)
        then InvalidContinuation r1
        else
          match r2 with
          | [] => UnexpectedEnd
          | b3 :: r3 =>
              let ch3 := Byte.to_N b3 in
              if is_continuation ch3
              then Char ((ch - 0xE0) * 4096 + (ch2 - 0x80) * 64 + (ch3 - 0x80)) r3
              else InvalidContinuation r2
          end
    end
  else if ch <? 0xF5 then
    match r1 with
    | [] => UnexpectedEnd
    | b2 :: r2 =>
        let ch2 := Byte.to_N b2 in
        if negb (is_continuation ch2)
           || (if ch2 <? 0x90 then ch =? 0xF0 else ch =? 0xF4)
        then InvalidContinuation r1
        else
          match r2 with
          | [] => UnexpectedEnd
          | b3 :: r3 =>
              let ch3 := Byte.to_N b3 in
              if negb (is_continuation ch3) then InvalidContinuation r2
              else
                match r3 with
                | [] => UnexpectedEnd
                | b4 :: r4 =>
                    let ch4 := Byte.to_N b4 in
                    if is_continuation ch4
                    then Char ((ch - 0xF0) * 262144 + (ch2 - 0x80) * 4096
                               + (ch3 - 0x80) * 64 + (ch4 - 0x80)) r4
                    else InvalidContinuation r3
                end
          end
    end
  else InvalidStart r1.

(** The input that follows what a step has read or passed over. *)
Definition rest_of (st : step) : option bytes :=
  match st with
  | Char _ rest | InvalidStart rest | InvalidContinuation rest => Some rest
  | UnexpectedEnd => None
  end.

(** The decoding loop of [unicode_decode_utf8]: in [Strict] mode the first
    error raises [UnicodeDecodeError]; in [Ignore] mode the bytes the error
    covers are passed over and decoding goes on after them. *)
Fixpoint decode_loop (errors : errors_mode) (fuel : nat) (bs : bytes)
  : outcome str :=
  match bs with
  | [] => Returned []
  | b1 :: r1 =>
      match fuel with
      | O => Raised FuelExhausted
      | S fuel' =>
          match next b1 r1 with
          | Char ch rest =>
              match decode_loop errors fuel' rest with
              | Returned s => Returned (ch :: s)
              | Raised e => Raised e
              end
          | InvalidStart rest | InvalidContinuation rest =>
              match errors with
              | Strict => Raised UnicodeDecodeError
              | Ignore => decode_loop errors fuel' rest
              end
          | UnexpectedEnd =>
              match errors with
              | Strict => Raised UnicodeDecodeError
              | Ignore => Returned []
              end
          end
      end
  end.

(** [bs.decode('utf-8', errors=errors)] *)
Definition decode (errors : errors_mode) (bs : bytes) : outcome str :=
  decode_loop errors (length bs) bs.

(** The decoded text, or the empty text where [decode] raises. *)
Definition decoded (errors : errors_mode) (bs : bytes) : str :=
  match decode errors bs with
  | Returned s => s
  | Raised _ => []
  end.

Definition byte_of_N (n : N) : byte :=
  match Byte.of_N n with
  | Some b => b
  | None => x00
  end.

(** A Unicode scalar value: a code point that is no surrogate. *)
Definition is_scalar (c : N) : bool :=
  (c <? 0xD800) || ((0xE000 <=? c) && (c <? 0x110000)).

(** UTF-8 encoding of one scalar value. *)
Definition encode_char (c : N) : bytes :=
  if c <? 0x80 then [byte_of_N c]
  else if c <? 0x800 then
    [byte_of_N (0xC0 + c / 64); byte_of_N (0x80 + c mod 64)]
  else if c <? 0x10000 then
    [byte_of_N (0xE0 + c / 4096); byte_of_N (0x80 + (c / 64) mod 64);
     byte_of_N (0x80 + c mod 64)]
  else
    [byte_of_N (0xF0 + c / 262144); byte_of_N (0x80 + (c / 4096) mod 64);
     byte_of_N (0x80 + (c / 64) mod 64); byte_of_N (0x80 + c mod 64)].

(** [s.encode('utf-8')] for a text of scalar values. *)
Definition encode (s : str) : bytes := flat_map encode_char s.

End Utf8.

(** A text literal of this file, which is UTF-8, as a Python [str]. *)
Definition lit (s : string) : str :=
  Utf8.decoded Utf8.Ignore (list_byte_of_string s).

(* ================================================================== *)
(** * JSON *)
(* ================================================================== *)

Module Json.

(** What [json.loads] builds. An object keeps its members in the order of
    the text, repeated keys included; [get] reads it the way the [dict]
    built from them answers. A number keeps its lexeme. *)
#[warnings="-register-all"]
Inductive value : Type :=
| JNull
| JBool (b : bool)
| JNumber (lexeme : str)
| JString (s : str)
| JArray (items : list value)
| JObject (members : list (str * value)).

Definition QUOTE : N := 34.
Definition BACKSLASH : N := 92.

(** [WHITESPACE] of json.decoder: space, tab, line feed, carriage return. *)
Definition is_ws (c : N) : bool :=
  (c =? 32) || (c =? 9) || (c =? 10) || (c =? 13).

Fixpoint skip_ws (s : str) : str :=
  match s with
  | [] => []
  | c :: s' => if is_ws c then skip_ws s' else s
  end.

Definition is_digit (c : N) : bool := (chr "0" <=? c) && (c <=? chr "9").

Definition hex_digit (c : N) : option N :=
  if is_digit c then Some (c - chr "0")
  else if (chr "a" <=? c) && (c <=? chr "f") then Some (c - chr "a" + 10)
  else if (chr "A" <=? c) && (c <=? chr "F") then Some (c - chr "A" + 10)
  else None.

Definition hex4 (h1 h2 h3 h4 : N) : option N :=
  match hex_digit h1, hex_digit h2, hex_digit h3, hex_digit h4 with
  | Some a, Some b, Some c, Some d => Some (((a * 16 + b) * 16 + c) * 16 + d)
  | _, _, _, _ => None
  end.

(** [BACKSLASH] of json.decoder: the one-letter escapes. *)
Definition simple_escape (e : N) : option N :=
  if e =? QUOTE then Some QUOTE
  else if e =? BACKSLASH then Some BACKSLASH
  else if e =? chr "/" then Some (chr "/")
  else if e =? chr "b" then Some 8
  else if e =? chr "f" then Some 12
  else if e =? chr "n" then Some 10
  else if e =? chr "r" then Some 13
  else if e =? chr "t" then Some 9
  else None.

Definition is_high_surrogate (c : N) : bool := (0xD800 <=? c) && (c <=? 0xDBFF).
Definition is_low_surrogate (c : N) : bool := (0xDC00 <=? c) && (c <=? 0xDFFF).

(** An escaped character [u] put after the characters read so far ([acc],
    last one first). [after_high] says that the last one is a high surrogate
    that an escape produced: a low surrogate escaped right after it makes one
    character with it. *)
Definition push_escaped (after_high : bool) (acc : str) (u : N) : str :=
  match acc with
  | hi :: acc' =>
      if after_high && is_low_surrogate u
      then (0x10000 + (hi - 0xD800) * 1024 + (u - 0xDC00)) :: acc'
      else u :: acc
  | [] => u :: acc
  end.

(** [scanstring] in strict mode, from the character after the opening quote:
    the text up to the closing quote, escapes resolved; a control character
    or a malformed escape is an error. *)
Fixpoint scanstring (after_high : bool) (acc : str) (s : str) : scan str :=
  match s with
  | [] => Bad
  | c :: r =>
      if c =? QUOTE then Ok (rev acc) r
      else if c =? BACKSLASH then
        match r with
        | [] => Bad
        | e :: r1 =>
            if e =? chr "u" then
              match r1 with
              | h1 :: h2 :: h3 :: h4 :: r2 =>
                  match hex4 h1 h2 h3 h4 with
                  | Some u =>
                      scanstring (is_high_surrogate u)
                                 (push_escaped after_high acc u) r2
                  | None => Bad
                  end
              | _ => Bad
              end
            else
              match simple_escape e with
              | Some x => scanstring false (x :: acc) r1
              | None => Bad
              end
        end
      else if c <? 0x20 then Bad
      else scanstring false (c :: acc) r
  end.

(** The longest run of digits at the head of [s], and what follows it. *)
Fixpoint span_digits (s : str) : str * str :=
  match s with
  | [] => ([], [])
  | c :: s' =>
      if is_digit c
      then let (ds, rest) := span_digits s' in (c :: ds, rest)
      else ([], s)
  end.

(** The integer part of [NUMBER_RE]: an optional minus sign, then a single
    zero or a digit from 1 to 9 followed by any digits. *)
Definition match_integer (s : str) : option (str * str) :=
  let (sign, s1) :=
    match s with
    | c :: r => if c =? chr "-" then ([c], r) else ([], s)
    | [] => ([], s)
    end in
  match s1 with
  | d :: r =>
      if d =? chr "0" then Some (sign ++ [d], r)
      else if is_digit d
           then let (ds, rest) := span_digits r in Some (sign ++ d :: ds, rest)
           else None
  | [] => None
  end.

(** The optional fraction of [NUMBER_RE]: a dot and at least one digit. *)
Definition match_fraction (s : str) : str * str :=
  match s with
  | c :: r =>
      if c =? chr "." then
        match span_digits r with
        | ([], _) => ([], s)
        | (ds, rest) => (c :: ds, rest)
        end
      else ([], s)
  | [] => ([], s)
  end.

(** The optional exponent of [NUMBER_RE]: e or E, a sign or none, and at
    least one digit. *)
Definition match_exponent (s : str) : str * str :=
  match s with
  | c :: r =>
      if (c =? chr "e") || (c =? chr "E") then
        let (sign, r1) :=
          match r with
          | g :: r' =>
              if (g =? chr "-") || (g =? chr "+") then ([g], r') else ([], r)
          | [] => ([], r)
          end in
        match span_digits r1 with
        | ([], _) => ([], s)
        | (ds, rest) => (c :: sign ++ ds, rest)
        end
      else ([], s)
  | [] => ([], s)
  end.

(** [NUMBER_RE.match]: the lexeme of the number at the head of [s]. *)
Definition match_number (s : str) : option (str * str) :=
  match match_integer s with
  | None => None
  | Some (int, r1) =>
      let (frac, r2) := match_fraction r1 in
      let (exp, r3) := match_exponent r2 in
      Some (int ++ frac ++ exp, r3)
  end.

(** [s] without its prefix [p], when it starts with it. *)
Fixpoint strip_prefix (p s : str) {struct p} : option str :=
  match p with
  | [] => Some s
  | x :: p' =>
      match s with
      | [] => None
      | c :: s' => if c =? x then strip_prefix p' s' else None
      end
  end.

(** The constants [scan_once] knows, in the order it tries them around the
    number: null, true, false before it; NaN, Infinity, -Infinity after. *)
Definition scan_constant (s : str) : scan value :=
  match strip_prefix (lit "null") s with
  | Some r => Ok JNull r
  | None =>
  match strip_prefix (lit "true") s with
  | Some r => Ok (JBool true) r
  | None =>
  match strip_prefix (lit "false") s with
  | Some r => Ok (JBool false) r
  | None =>
  match match_number s with
  | Some (lexeme, r) => Ok (JNumber lexeme) r
  | None =>
  match strip_prefix (lit "NaN") s with
  | Some r => Ok (JNumber (lit "NaN")) r
  | None =>
  match strip_prefix (lit "Infinity") s with
  | Some r => Ok (JNumber (lit "Infinity")) r
  | None =>
  match strip_prefix (lit "-Infinity") s with
  | Some r => Ok (JNumber (lit "-Infinity")) r
  | None => Bad
  end end end end end end end.

(** [scan_once], [JSONObject] and [JSONArray] of the json module.
    [scan_once] reads the value at the head of [s]; [scan_members] reads an
    object from the quote that opens a key, [scan_items] an array from the
    head of an item, each with what it has read so far, last one first. The
    recursion is on [fuel]; [loads] gives it more than it can use. *)
Fixpoint scan_once (fuel : nat) (s : str) : scan value :=
  match fuel with
  | O => Starved
  | S fuel' =>
      match s with
      | [] => Bad
      | c :: r =>
          if c =? QUOTE then
            match scanstring false [] r with
            | Ok text rest => Ok (JString text) rest
            | Bad => Bad
            | Starved => Starved
            end
          else if c =? chr "{" then
            match skip_ws r with
            | [] => Bad
            | c' :: r' =>
                if c' =? chr "}" then Ok (JObject []) r'
                else scan_members fuel' [] (c' :: r')
            end
          else if c =? chr "[" then
            match skip_ws r with
            | [] => Bad
            | c' :: r' =>
                if c' =? chr "]" then Ok (JArray []) r'
                else scan_items fuel' [] (c' :: r')
            end
          else scan_constant s
      end
  end

with scan_members (fuel : nat) (acc : list (str * value)) (s : str)
  : scan value :=
  match fuel with
  | O => Starved
  | S fuel' =>
      match s with
      | [] => Bad
      | c :: r =>
          if negb (c =? QUOTE) then Bad
          else
            match scanstring false [] r with
            | Bad => Bad
            | Starved => Starved
            | Ok key r1 =>
                match skip_ws r1 with
                | [] => Bad
                | c1 :: r2 =>
                    if negb (c1 =? chr ":") then Bad
                    else
                      match scan_once fuel' (skip_ws r2) with
                      | Bad => Bad
                      | Starved => Starved
                      | Ok v r3 =>
                          match skip_ws r3 with
                          | [] => Bad
                          | c3 :: r4 =>
                              if c3 =? chr "}"
                              then Ok (JObject (rev ((key, v) :: acc))) r4
                              else if c3 =? chr ","
                              then scan_members fuel' ((key, v) :: acc)
                                                (skip_ws r4)
                              else Bad
                          end
                      end
                end
            end
      end
  end

with scan_items (fuel : nat) (acc : list value) (s : str) : scan value :=
  match fuel with
  | O => Starved
  | S fuel' =>
      match scan_once fuel' s with
      | Bad => Bad
      | Starved => Starved
      | Ok v r1 =>
          match skip_ws r1 with
          | [] => Bad
          | c1 :: r2 =>
              if c1 =? chr "]" then Ok (JArray (rev (v :: acc))) r2
              else if c1 =? chr ","
              then scan_items fuel' (v :: acc) (skip_ws r2)
              else Bad
          end
      end
  end.

(** [json.loads(s)] for a [str]: no byte-order mark, optional whitespace,
    one value, optional whitespace, and nothing else. This is the grammar
    the scanner accepts; CPython's limits on nesting depth and on the digits
    of an integer are not part of it. *)
Definition loads (s : str) : outcome value :=
  if startswith s [0xFEFF] then Raised JSONDecodeError
  else
    match scan_once (2 * length s + 2) (skip_ws s) with
    | Ok v rest =>
        match skip_ws rest with
        | [] => Returned v
        | _ :: _ => Raised JSONDecodeError
        end
    | Bad => Raised JSONDecodeError
    | Starved => Raised FuelExhausted
    end.

(** [d.get(key, default)] on the [dict] that [loads] builds from [members]:
    of repeated keys the last one counts. *)
Fixpoint get (members : list (str * value)) (key : str) (default : value)
  : value :=
  match members with
  | [] => default
  | (k, v) :: rest =>
      if eqb k key
      then get rest key v
      else get rest key default
  end.

End Json.
Export Json.

(* ================================================================== *)
(** * The world of the script *)
(* ================================================================== *)

(** The [json=] argument of the request: a dict with these three keys. *)
Record payload : Type := {
  model : str;
  prompt : str;
  stream : bool
}.

(** One call of [requests.post(url, json=..., timeout=...)]. *)
Record request : Type := {
  url : str;
  json : payload;
  timeout : N
}.

(** What the script reads of a [requests.Response]. *)
Record response : Type := {
  status_code : N;
  content : Utf8.bytes
}.

(** What a call of [requests.post] does: it returns a response or raises. *)
Inductive http_outcome : Type :=
| Answers (r : response)
| Fails (e : request_error).

(** The text-generation service: what it does with the request it gets
    after [n] earlier ones. *)
Definition endpoint : Type := nat -> request -> http_outcome.

(** An [arxiv.Result], as far as the script reads it. *)
Record paper : Type := {
  title : str;
  summary : str;
  entry_id : str
}.

(** The state the script acts on: the requests sent so far (oldest first),
    the text files by name, and the pauses taken (oldest first). *)
Record world : Type := {
  sent : list request;
  files : list (str * str);
  naps : list N
}.

Definition initial_world : world := {| sent := []; files := []; naps := [] |}.

(** A computation that reads and changes the world, and returns or raises. *)
Definition M (A : Type) : Type := world -> outcome A * world.

Definition ret {A : Type} (a : A) : M A := fun w => (Returned a, w).

Definition raise {A : Type} (e : exn) : M A := fun w => (Raised e, w).

Definition bind {A B : Type} (m : M A) (k : A -> M B) : M B :=
  fun w =>
    match m w with
    | (Returned a, w') => k a w'
    | (Raised e, w') => (Raised e, w')
    end.

Notation "x <- m ;; k" := (bind m (fun x => k))
  (at level 61, m at next level, right associativity).
Notation "m ;; k" := (bind m (fun _ => k))
  (at level 61, right associativity).

(** The result of a pure library call, as a computation. *)
Definition lift {A : Type} (o : outcome A) : M A := fun w => (o, w).

(** [try: body except ...]: [handler e] is the clause that catches [e], if
    one does. *)
Definition try_except {A : Type} (body : M A) (handler : exn -> option (M A))
  : M A :=
  fun w =>
    match body w with
    | (Returned a, w') => (Returned a, w')
    | (Raised e, w') =>
        match handler e with
        | Some h => h w'
        | None => (Raised e, w')
        end
    end.

(** [response.raise_for_status()]: [HTTPError] for a 4xx or 5xx status. *)
Definition raise_for_status (r : response) : M unit :=
  if (400 <=? status_code r) && (status_code r <? 600)
  then raise (RequestException (HTTPError (status_code r)))
  else ret tt.

(** [v.get(key, default)]: only a [dict] has the method. *)
Definition method_get (v : value) (key : str) (default : value)
  : outcome value :=
  match v with
  | JObject members => Returned (Json.get members key default)
  | _ => Raised AttributeError
  end.

(** [v.strip()]: only a [str] has the method. *)
Definition method_strip (v : value) : outcome str :=
  match v with
  | JString s => Returned (strip s)
  | _ => Raised AttributeError
  end.

Fixpoint file_set (name text : str) (fs : list (str * str))
  : list (str * str) :=
  match fs with
  | [] => [(name, text)]
  | (n, t) :: fs' =>
      if eqb n name then (n, text) :: fs' else (n, t) :: file_set name text fs'
  end.

Fixpoint file_get (name : str) (fs : list (str * str)) : str :=
  match fs with
  | [] => []
  | (n, t) :: fs' => if eqb n name then t else file_get name fs'
  end.

(** [open(name, "w", encoding="utf-8")]: the file is created or emptied,
    or the file system refuses the name ([openable name] is false: a name
    too long for it, a directory that cannot be written) and the call raises
    [OSError]. *)
Definition file_open_w (openable : str -> bool) (name : str) : M unit :=
  fun w =>
    if openable name
    then (Returned tt,
          {| sent := sent w; files := file_set name [] (files w);
             naps := naps w |})
    else (Raised OSError, w).

(** A text that [str.encode('utf-8')] accepts: it has no surrogate. *)
Definition encodable (text : str) : bool := forallb Utf8.is_scalar text.

(** [f.write(text)] on a UTF-8 text file: a surrogate cannot be encoded. *)
Definition file_write (name text : str) : M unit :=
  fun w =>
    if encodable text
    then (Returned tt,
          {| sent := sent w;
             files := file_set name (file_get name (files w) ++ text) (files w);
             naps := naps w |})
    else (Raised UnicodeEncodeError, w).

(** [time.sleep(seconds)] *)
Definition time_sleep (seconds : N) : M unit :=
  fun w => (Returned tt,
            {| sent := sent w; files := files w; naps := naps w ++ [seconds] |}).

(* ================================================================== *)
(** * The script *)
(* ================================================================== *)

Definition LF : str := [10].

(** The lines of a text, each one ended by a line feed. *)
Definition lines (ls : list str) : str :=
  flat_map (fun l => l ++ LF) ls.

Definition OLLAMA_API_URL : str := lit "http://localhost:11434/api/generate".

(** The prompt's f-string up to its slot [{text}] ... *)
Definition PROMPT_HEAD : str := lines [
  lit "You are a silent, professional Japanese translation engine. Your task is to translate the following English academic abstract into Japanese.";
  lit "";
  lit "**Strict Instructions:**";
  lit "- **CRITICAL: You MUST output using Japanese characters (Kanji, Hiragana, Katakana). Do NOT use Romaji.**";
  lit "- Translate the text into natural-sounding, clear, and accurate Japanese.";
  lit "- Maintain a professional and academic tone.";
  lit "- **CRITICAL: You MUST complete the translation.** Do not stop halfway.";
  lit "- **CRITICAL: Do NOT output ANYTHING other than the translated Japanese text.** Do not include preambles, apologies, or any meta-commentary.";
  lit "";
  lit "--- English Abstract ---"
].

(** ... and after it. *)
Definition PROMPT_TAIL : str := LF ++ lines [lit "--- End of Abstract ---"].

Definition build_prompt (text : str) : str := PROMPT_HEAD ++ text ++ PROMPT_TAIL.

Definition NO_RESULT : str := lit "翻訳結果がありません。".

Definition FIRST_PHRASE : str := lit "Here is the translation:".

Definition SECOND_PHRASE : str :=
  lit "Here is the translation of the English text into Japanese:".

Definition unwanted_phrases : list str := [FIRST_PHRASE; SECOND_PHRASE].

Definition CONNECTION_MESSAGE : str :=
  lit "翻訳エラー：Ollama APIに接続できませんでした。Ollamaが起動しているか確認してください。".

Definition PARSE_MESSAGE : str :=
  lit "翻訳エラー：Ollamaからのレスポンスの解析に失敗しました。".

Definition ERROR_MARKER : str := lit "翻訳エラー".

(** The post-processing loop over [unwanted_phrases]. *)
Definition remove_unwanted (translated_text : str) : str :=
  fold_left (fun text phrase => replace text phrase []) unwanted_phrases
            translated_text.

(** The two outcomes of the specification. The function returns a plain
    [str]; the variant records which [return] produced it: the one that ends
    the [try] block ([Success]) or one of an [except] clause ([Failure]). *)
Inductive TranslationResult : Type :=
| Success (text : str)
| Failure (reason : str).

(** The [str] the Python function returns. *)
Definition text_of (r : TranslationResult) : str :=
  match r with
  | Success text => text
  | Failure reason => reason
  end.

Definition is_translation_error (translated_text : str) : bool :=
  startswith translated_text ERROR_MARKER.

Definition sanitize_char (c : N) : N :=
  if existsb (N.eqb c)
       [BACKSLASH; chr "/"; chr ":"; chr "*"; chr "?"; QUOTE; chr "<"; chr ">";
        chr "|"]
  then chr "_" else c.

Definition sanitize_filename (filename : str) : str := map sanitize_char filename.

Definition SEPARATOR : str := repeat (chr "-") 50.

(** The block written for one paper. *)
Definition output_content (result : paper) (formatted_abstract : str) : str :=
  lit "■ タイトル: " ++ title result ++ LF
  ++ lit "■ URL: " ++ entry_id result ++ LF ++ LF
  ++ lit "--- 翻訳された要旨 ---" ++ LF
  ++ formatted_abstract ++ LF
  ++ SEPARATOR ++ LF ++ LF.

Section Script.

(** The services and library functions the script relies on. *)
Variable ollama : endpoint.
Variable arxiv_results : str -> N -> outcome (list paper).
Variable textwrap_fill : str -> N -> str.
Variable lower : str -> str.
Variable openable : str -> bool.

(** [requests.post(url, json=payload, timeout=timeout)]: the request goes
    out, and the service answers it or the call raises. *)
Definition requests_post (url : str) (json : payload) (timeout : N)
  : M response :=
  fun w =>
    let req := {| url := url; json := json; timeout := timeout |} in
    let w' := {| sent := sent w ++ [req]; files := files w; naps := naps w |} in
    match ollama (length (sent w)) req with
    | Answers r => (Returned r, w')
    | Fails e => (Raised (RequestException e), w')
    end.

(** [translate_text_with_ollama] with its result tagged by the [return]
    that produced it. The [print] of the first [except] clause is left
    out. *)
Definition translate (text model_name : str) : M TranslationResult :=
  let prompt := build_prompt text in
  let payload := {| model := model_name; prompt := prompt; stream := false |} in
  try_except
    (response <- requests_post OLLAMA_API_URL payload 180 ;;
     raise_for_status response ;;
     response_text <- lift (Utf8.decode Utf8.Ignore (content response)) ;;
     response_data <- lift (Json.loads response_text) ;;
     field <- lift (method_get response_data (lit "response") (JString NO_RESULT)) ;;
     translated_text <- lift (method_strip field) ;;
     ret (Success (remove_unwanted translated_text)))
    (fun e =>
       match e with
       | RequestException _ => Some (ret (Failure CONNECTION_MESSAGE))
       | JSONDecodeError => Some (ret (Failure PARSE_MESSAGE))
       | _ => None
       end).

Definition translate_text_with_ollama (text model_name : str) : M str :=
  r <- translate text model_name ;;
  ret (text_of r).

(** The body of [for i, result in enumerate(results)], from index [i] on;
    [total] is [len(results)] and [f] the name of the open file. Each turn
    translates the abstract, writes the block of the paper whatever the
    translation came to, and pauses unless the paper is the last one. *)
Fixpoint translate_each (f : str) (model_name : str) (total i : nat)
  (results : list paper) : M unit :=
  match results with
  | [] => ret tt
  | result :: rest =>
      let abstract := replace (summary result) LF [chr " "] in
      translated_abstract <- translate_text_with_ollama abstract model_name ;;
      let formatted_abstract := textwrap_fill translated_abstract 50 in
      file_write f (output_content result formatted_abstract) ;;
      (if (i <? total - 1)%nat then time_sleep 1 else ret tt) ;;
      translate_each f model_name total (S i) rest
  end.

Definition output_filename (query : str) : str :=
  let base_filename := lower (replace query [chr " "] [chr "_"]) in
  sanitize_filename base_filename ++ lit "_results.txt".

(** [search_and_translate_papers]: the search, then the file and the loop,
    all inside [try], whose [except Exception] clause takes whatever they
    raise and returns. [arxiv_results] stands for the list that
    [client.results] gives, [openable] for what the file system says of a
    name. The [print] calls, the one before [try] and the one of the handler
    among them, are left out. *)
Definition search_and_translate_papers (query : str) (max_results : N)
  (model_name : str) : M unit :=
  let filename := output_filename query in
  try_except
    (results <- lift (arxiv_results query max_results) ;;
     match results with
     | [] => ret tt
     | _ :: _ =>
         file_open_w openable filename ;;
         translate_each filename model_name (length results) O results
     end)
    (fun _ => Some (ret tt)).

End Script.

(* ================================================================== *)
(** * Vocabulary of the properties *)
(* ================================================================== *)

(** The request [translate] builds for [text] and [model_name]. *)
Definition translation_request (text model_name : str) : request :=
  {| url := OLLAMA_API_URL;
     json := {| model := model_name; prompt := build_prompt text;
                stream := false |};
     timeout := 180 |}.

(** What [translate] makes of one exchange: its result against a service
    that does [o]. *)
Definition verdict (o : http_outcome) : outcome TranslationResult :=
  fst (translate (fun _ _ => o) [] [] initial_world).

(** The status codes that [raise_for_status] lets through. *)
Definition status_ok (status : N) : bool :=
  negb ((400 <=? status) && (status <? 600)).

(** The exchange [o] is a mechanical success that carries the text
    [generated]: the service answers, the status passes, the body decodes
    and parses to a JSON object, and [generated] is what the script reads
    as its [response]. *)
Definition generates (o : http_outcome) (generated : str) : Prop :=
  exists r s members,
    o = Answers r /\
    status_ok (status_code r) = true /\
    Utf8.decode Utf8.Ignore (content r) = Returned s /\
    Json.loads s = Returned (JObject members) /\
    Json.get members (lit "response") (JString NO_RESULT) = JString generated.

(** The abstract the loop sends for a paper. *)
Definition abstract_of (result : paper) : str :=
  replace (summary result) LF [chr " "].

(** The requests numbered [n] and up, made in turn for these papers, end in
    these results, and the block of each can be written to a UTF-8 file. *)
Inductive settled (ollama : endpoint) (textwrap_fill : str -> N -> str)
  (model_name : str) : nat -> list paper -> list TranslationResult -> Prop :=
| settled_nil (n : nat) : settled ollama textwrap_fill model_name n [] []
| settled_cons (n : nat) (p : paper) (ps : list paper)
    (r : TranslationResult) (rs : list TranslationResult) :
    verdict (ollama n (translation_request (abstract_of p) model_name))
      = Returned r ->
    encodable (output_content p (textwrap_fill (text_of r) 50)) = true ->
    settled ollama textwrap_fill model_name (S n) ps rs ->
    settled ollama textwrap_fill model_name n (p :: ps) (r :: rs).

(** The blocks written for these papers and results, in order. *)
Fixpoint blocks (textwrap_fill : str -> N -> str) (results : list paper)
  (outcomes : list TranslationResult) : str :=
  match results, outcomes with
  | p :: ps, r :: rs =>
      output_content p (textwrap_fill (text_of r) 50)
      ++ blocks textwrap_fill ps rs
  | _, _ => []
  end.

(* ================================================================== *)
(** * Inputs used by the examples *)
(* ================================================================== *)

(** The bytes of a text literal, with every apostrophe read as a double
    quote: JSON bodies are written with apostrophes below. *)
Definition body (s : string) : Utf8.bytes :=
  map (fun b => match b with x27 => x22 | _ => b end) (list_byte_of_string s).

(** A service that answers every request with status 200 and these bytes. *)
Definition answering (bs : Utf8.bytes) : endpoint :=
  fun _ _ => Answers {| status_code := 200; content := bs |}.

(** A service that cannot be reached. *)
Definition refusing : endpoint := fun _ _ => Fails ConnectionError.

(** The text of a JSON literal written with apostrophes. *)
Definition decoded_json (s : string) : str :=
  Utf8.decoded Utf8.Ignore (body s).

(** An answer with status 200 and these bytes. *)
Definition ok_with (bs : Utf8.bytes) : http_outcome :=
  Answers {| status_code := 200; content := bs |}.

Definition SOME_ABSTRACT : str :=
  lit "Graph neural networks improve molecule generation.".

Definition LLAMA3 : str := lit "llama3".

(** A body with the first boilerplate phrase before the translation. *)
Definition greeting_body : Utf8.bytes :=
  body "{'response': 'Here is the translation: こんにちは'}".

(** A body with the second boilerplate phrase before the translation. *)
Definition long_greeting_body : Utf8.bytes :=
  body "{'response': 'Here is the translation of the English text into Japanese:こんにちは'}".

(** Valid JSON that is no object, and an object whose text field is null. *)
Definition array_body : Utf8.bytes := body "[]".
Definition null_field_body : Utf8.bytes := body "{'response': null}".

(** A JSON object without the text field. *)
Definition no_field_body : Utf8.bytes := body "{'model': 'llama3', 'done': true}".

(** A translation that happens to start with the marker of the error
    messages. *)
Definition marker_body : Utf8.bytes :=
  body "{'response': '翻訳エラーという語は翻訳の失敗を意味します。'}".

(** The JSON of [greeting_body] with bytes that are not UTF-8 in between:
    a stray 0xFF, a sequence cut short, an overlong form. *)
Definition corrupted_body : Utf8.bytes :=
  body "{'response': 'こん" ++ [xff; xe3; x81] ++ body "にち" ++ [xc0; x80]
  ++ body "は'}".

Definition RESIDUE : str := lit " of the English text into Japanese:".

Definition two_papers : list paper := [
  {| title := lit "Attention Is All You Need";
     summary := lit "The dominant sequence transduction models";
     entry_id := lit "http://arxiv.org/abs/1706.03762v7" |};
  {| title := lit "Deep Residual Learning";
     summary := lit "Deeper neural networks are more difficult to train.";
     entry_id := lit "http://arxiv.org/abs/1512.03385v1" |}
].

(** A service that lets the first request run out of time and answers the
    later ones. *)
Definition flaky : endpoint :=
  fun n _ =>
    match n with
    | O => Fails Timeout
    | S _ => ok_with greeting_body
    end.

(** A stand-in for [textwrap.fill] in the examples: the text unchanged. *)
Definition no_wrap (text : str) (width : N) : str := text.

(* ================================================================== *)
(** * The command line *)
(* ================================================================== *)

(** [sep.join(parts)] *)
Fixpoint join (sep : str) (parts : list str) : str :=
  match parts with
  | [] => []
  | p :: rest =>
      match rest with
      | [] => p
      | _ :: _ => p ++ sep ++ join sep rest
      end
  end.

(** The f-string [({q})]. *)
Definition parenthesised (q : str) : str := chr "(" :: q ++ [chr ")"].

(** [" AND ".join(f"({q})" for q in args.queries)] *)
Definition combined_query (queries : list str) : str :=
  join (lit " AND ") (map parenthesised queries).

(** What [parser.parse_args()] returns: one keyword or more ([nargs='+']),
    [--max] and [--model] with their defaults filled in. *)
Module Args.
Record t : Type := {
  queries : list str;
  max : N;
  model : str
}.
End Args.

Section Main.

Variable ollama : endpoint.
Variable arxiv_results : str -> N -> outcome (list paper).
Variable textwrap_fill : str -> N -> str.
Variable lower : str -> str.
Variable openable : str -> bool.

(** [main] from the parsed arguments on, without its two [print] calls. *)
Definition main (args : Args.t) : M unit :=
  let combined_query := combined_query (Args.queries args) in
  let model_to_use := Args.model args in
  search_and_translate_papers ollama arxiv_results textwrap_fill lower
    openable combined_query (Args.max args) model_to_use.

End Main.

(** The characters that [sanitize_filename] replaces. *)
Definition forbidden (c : N) : bool :=
  existsb (N.eqb c)
    [BACKSLASH; chr "/"; chr ":"; chr "*"; chr "?"; QUOTE; chr "<"; chr ">";
     chr "|"].

(** A text free of the characters that [sanitize_filename] replaces. *)
Definition filename_safe (name : str) : bool :=
  forallb (fun c => negb (forbidden c)) name.

Definition RESULTS_SUFFIX : str := lit "_results.txt".

(** A text with no character [c] in it. *)
Definition lacks (c : N) (s : str) : bool := forallb (fun x => negb (x =? c)) s.

(** A body that starts with the UTF-8 byte-order mark. *)
Definition bom_body : Utf8.bytes :=
  [xef; xbb; xbf] ++ body "{'response': 'こんにちは'}".

(** A body whose text is a lone surrogate, written as an escape. *)
Definition surrogate_body : Utf8.bytes := body "{'response': '\ud800'}".

(** A body with the text field twice, and another field after it. *)
Definition repeated_field_body : Utf8.bytes :=
  body "{'response': 'いいえ', 'response': 'はい', 'done': true}".

(** A body whose text field holds a number. *)
Definition number_field_body : Utf8.bytes := body "{'response': 42}".

(** A body that is an HTML page. *)
Definition html_body : Utf8.bytes :=
  body "<html><body>502 Bad Gateway</body></html>".

(** A body whose text is whitespace only. *)
Definition blank_body : Utf8.bytes := body "{'response': ' \n\t　 '}".

(** A plain translation. *)
Definition plain_body : Utf8.bytes :=
  body "{'response': '  グラフニューラルネットワークは分子生成を改善する。 '}".

(** A service that answers the first request and sends JSON of another
    shape from then on. *)
Definition breaking : endpoint :=
  fun n _ =>
    match n with
    | O => ok_with plain_body
    | S _ => ok_with array_body
    end.

(** A service that answers the first request and sends a lone surrogate
    from then on. *)
Definition garbling : endpoint :=
  fun n _ =>
    match n with
    | O => ok_with plain_body
    | S _ => ok_with surrogate_body
    end.

(** A search that finds [two_papers], one that finds nothing and one that
    fails. *)
Definition finding (query : str) (max_results : N) : outcome (list paper) :=
  Returned two_papers.
Definition finding_nothing (query : str) (max_results : N)
  : outcome (list paper) := Returned [].
Definition failing_search (query : str) (max_results : N)
  : outcome (list paper) := Raised (RequestException ConnectionError).

(** A stand-in for [str.lower] in the examples: the text unchanged. *)
Definition no_lower (s : str) : str := s.

(** The turn of the loop for paper [p], whose request is the one numbered
    [n], ends in the exception [e]: the call of [translate] raises it, or
    the block of its result cannot be encoded. *)
Definition turn_breaks (ollama : endpoint) (textwrap_fill : str -> N -> str)
  (model_name : str) (n : nat) (p : paper) (e : exn) : Prop :=
  verdict (ollama n (translation_request (abstract_of p) model_name)) = Raised e
  \/ (e = UnicodeEncodeError
      /\ exists r,
           verdict (ollama n (translation_request (abstract_of p) model_name))
             = Returned r
           /\ encodable (output_content p (textwrap_fill (text_of r) 50))
              = false).

(** The characters a JSON text can start with, whitespace apart: the ones
    [scan_once] reads on before it gives up. *)
Definition starts_value (c : N) : bool :=
  existsb (N.eqb c)
    [QUOTE; chr "{"; chr "["; chr "n"; chr "t"; chr "f"; chr "-"; chr "N";
     chr "I"]
  || is_digit c.

Definition short_names_only (name : str) : bool :=
  (length (Utf8.encode name) <=? 255)%nat.

(** A query of 300 characters. *)
Definition LONG_QUERY : str := repeat (chr "a") 300.



(** The second paper of [two_papers]. *)
Definition second_paper : paper :=
  {| title := lit "Deep Residual Learning";
     summary := lit "Deeper neural networks are more difficult to train.";
     entry_id := lit "http://arxiv.org/abs/1512.03385v1" |}.

Definition PLAIN_TRANSLATION : str :=
  lit "グラフニューラルネットワークは分子生成を改善する。".

(* ================================================================== *)
(** * Facts about the UTF-8 codec *)
(* ================================================================== *)

Module Utf8Facts.
Import Utf8.

Ltac Zify.zify_post_hook ::= Z.to_euclidean_division_equations.

(** Case analysis on every test and every look-ahead of [next]. *)
Ltac split_next :=
  repeat match goal with
    | |- context [if ?c then _ else _] => destruct c eqn:?
    | |- context [match ?l with [] => _ | _ :: _ => _ end] => destruct l
    end.

(** Boolean tests in the context become arithmetic facts. *)
Ltac tests_to_props :=
  unfold is_continuation, is_scalar in *;
  repeat match goal with
    | H : negb _ = true |- _ => apply negb_true_iff in H
    | H : negb _ = false |- _ => apply negb_false_iff in H
    | H : (_ || _)%bool = true |- _ => apply orb_true_iff in H; destruct H
    | H : (_ || _)%bool = false |- _ => apply orb_false_iff in H; destruct H
    | H : (_ && _)%bool = true |- _ => apply andb_true_iff in H; destruct H
    | H : (_ && _)%bool = false |- _ => apply andb_false_iff in H; destruct H
    | H : (if ?c then _ else _) = _ |- _ => destruct c eqn:?
    | H : (_ <? _) = true |- _ => apply N.ltb_lt in H
    | H : (_ <? _) = false |- _ => apply N.ltb_ge in H
    | H : (_ <=? _) = true |- _ => apply N.leb_le in H
    | H : (_ <=? _) = false |- _ => apply N.leb_gt in H
    | H : (_ =? _) = true |- _ => apply N.eqb_eq in H
    | H : (_ =? _) = false |- _ => apply N.eqb_neq in H
    end.

Lemma subseq_nil {A : Type} (l : list A) : subseq [] l.
Proof. induction l; now constructor. Qed.

Lemma subseq_app_same {A : Type} (pre l1 l2 : list A) :
  subseq l1 l2 -> subseq (pre ++ l1) (pre ++ l2).
Proof. intros H. induction pre; simpl; [exact H | now constructor]. Qed.

Lemma subseq_app_skip {A : Type} (pre l1 l2 : list A) :
  subseq l1 l2 -> subseq l1 (pre ++ l2).
Proof. intros H. induction pre; simpl; [exact H | now constructor]. Qed.

Lemma next_rest_suffix (b1 : byte) (r1 rest : bytes) :
  rest_of (next b1 r1) = Some rest ->
  exists pre, pre <> [] /\ b1 :: r1 = pre ++ rest.
Proof.
  unfold next. split_next; simpl; intros [= <-].
  all: first
    [ now exists [b1]
    | match goal with
      | |- exists _, _ /\ ?a :: ?b :: ?r = _ ++ ?r => now exists [a; b]
      | |- exists _, _ /\ ?a :: ?b :: ?c :: ?r = _ ++ ?r => now exists [a; b; c]
      | |- exists _, _ /\ ?a :: ?b :: ?c :: ?d :: ?r = _ ++ ?r =>
          now exists [a; b; c; d]
      end ].
Qed.

Lemma next_rest_shorter (b1 : byte) (r1 rest : bytes) :
  rest_of (next b1 r1) = Some rest -> (length rest <= length r1)%nat.
Proof.
  intros H. destruct (next_rest_suffix _ _ _ H) as (pre & Hne & E).
  apply (f_equal (@length byte)) in E. rewrite length_app in E. simpl in E.
  destruct pre; [congruence | simpl in E; lia].
Qed.


Lemma byte_of_to_N (b : byte) : byte_of_N (Byte.to_N b) = b.
Proof. unfold byte_of_N. now rewrite Byte.of_to_N. Qed.

Lemma to_N_byte_of_N (n : N) : n <= 255 -> Byte.to_N (byte_of_N n) = n.
Proof.
  intros H. unfold byte_of_N. destruct (Byte.of_N n) as [b |] eqn:E.
  - now apply Byte.to_of_N.
  - apply Byte.of_N_None_iff in E. lia.
Qed.

Lemma byte_of_N_eq (n : N) (b : byte) : n = Byte.to_N b -> byte_of_N n = b.
Proof. intros ->. apply byte_of_to_N. Qed.

(** A decoded character is a scalar value, and the bytes read are its
    encoding. *)
Lemma next_char_encode (b1 : byte) (r1 : bytes) (ch : N) (rest : bytes) :
  next b1 r1 = Char ch rest ->
  is_scalar ch = true /\ b1 :: r1 = encode_char ch ++ rest.
Proof.
  unfold next.
  pose proof (Byte.to_N_bounded b1) as B1.
  split_next; intros [= <- <-];
    repeat match goal with
      | b : byte |- _ =>
          lazymatch goal with
          | H : Byte.to_N b <= 255 |- _ => fail
          | _ => pose proof (Byte.to_N_bounded b)
          end
      end;
    tests_to_props; try lia.
  all: split;
    [ unfold is_scalar;
      repeat match goal with
        | |- context [?a <? ?b] => destruct (N.ltb_spec a b)
        | |- context [?a <=? ?b] => destruct (N.leb_spec a b)
        end; simpl; try reflexivity; lia
    | unfold encode_char;
      repeat match goal with
        | |- context [?a <? ?b] => destruct (N.ltb_spec a b); try lia
        end;
      cbn [app]; repeat f_equal; symmetry; apply byte_of_N_eq; lia ].
Qed.

(** Tests in the goal are decided by arithmetic. *)
Ltac decide_tests :=
  repeat match goal with
    | |- context [?a <? ?b] =>
        first [ replace (a <? b) with true by (symmetry; apply N.ltb_lt; lia)
              | replace (a <? b) with false by (symmetry; apply N.ltb_ge; lia) ]
    | |- context [?a <=? ?b] =>
        first [ replace (a <=? b) with true by (symmetry; apply N.leb_le; lia)
              | replace (a <=? b) with false by (symmetry; apply N.leb_gt; lia) ]
    | |- context [?a =? ?b] =>
        first [ replace (a =? b) with true by (symmetry; apply N.eqb_eq; lia)
              | replace (a =? b) with false by (symmetry; apply N.eqb_neq; lia) ]
    end.

(** The encoding of a scalar value decodes to it, whatever follows. *)
Lemma next_encode_char (c : N) (rest : bytes) :
  is_scalar c = true ->
  exists b1 r1, encode_char c ++ rest = b1 :: r1 /\ next b1 r1 = Char c rest.
Proof.
  intros Hc. unfold encode_char.
  destruct (c <? 128) eqn:T1; [| destruct (c <? 2048) eqn:T2;
                                 [| destruct (c <? 65536) eqn:T3]];
    tests_to_props; try lia;
    (eexists; eexists; split; [reflexivity |]);
    unfold next; cbv zeta;
    rewrite ?to_N_byte_of_N by lia;
    unfold is_continuation;
    repeat (decide_tests; cbn [negb orb andb];
            try match goal with
              | |- context [?a <? ?b] => destruct (N.ltb_spec a b)
              end);
    f_equal; lia.
Qed.

(** More budget than the input has bytes changes nothing. *)
Lemma decode_loop_fuel (m : errors_mode) (f1 : nat) :
  forall (f2 : nat) (bs : bytes),
    (length bs <= f1)%nat -> (length bs <= f2)%nat ->
    decode_loop m f1 bs = decode_loop m f2 bs.
Proof.
  induction f1 as [| f1 IH]; intros f2 [| b1 r1] H1 H2; simpl in *;
    try lia; try (destruct f2; reflexivity).
  destruct f2 as [| f2]; [lia |]. simpl.
  destruct (next b1 r1) as [ch rest | rest | rest |] eqn:E;
    try reflexivity;
    assert (length rest <= length r1)%nat
      by (apply (next_rest_shorter b1); rewrite E; reflexivity);
    rewrite (IH f2 rest) by lia; reflexivity.
Qed.

(** The loop, one step at a time, without its budget. *)
Lemma decode_cons (m : errors_mode) (b1 : byte) (r1 : bytes) :
  decode m (b1 :: r1) =
  match next b1 r1 with
  | Char ch rest =>
      match decode m rest with
      | Returned s => Returned (ch :: s)
      | Raised e => Raised e
      end
  | InvalidStart rest | InvalidContinuation rest =>
      match m with
      | Strict => Raised UnicodeDecodeError
      | Ignore => decode m rest
      end
  | UnexpectedEnd =>
      match m with
      | Strict => Raised UnicodeDecodeError
      | Ignore => Returned []
      end
  end.
Proof.
  unfold decode. simpl.
  destruct (next b1 r1) as [ch rest | rest | rest |] eqn:E;
    try reflexivity;
    assert (length rest <= length r1)%nat
      by (apply (next_rest_shorter b1); rewrite E; reflexivity);
    rewrite (decode_loop_fuel m (length r1) (length rest) rest) by lia;
    reflexivity.
Qed.

(** Induction on the input of [decode], along the steps of [next]. *)
Lemma decode_ind (P : bytes -> Prop) :
  P [] ->
  (forall b1 r1,
      (forall rest, rest_of (next b1 r1) = Some rest -> P rest) ->
      P (b1 :: r1)) ->
  forall bs, P bs.
Proof.
  intros Hnil Hcons bs.
  assert (G : forall n bs, (length bs <= n)%nat -> P bs).
  { induction n as [| n IH]; intros [| b1 r1] Hlen; simpl in Hlen;
      try exact Hnil; try lia.
    apply Hcons. intros rest Hrest. apply IH.
    apply next_rest_shorter in Hrest. lia. }
  exact (G (length bs) bs (Nat.le_refl _)).
Qed.

(** With [errors='ignore'] decoding always returns a text. *)
Lemma decode_ignore_returns (bs : bytes) :
  exists s, decode Ignore bs = Returned s.
Proof.
  induction bs as [| b1 r1 IH] using decode_ind.
  - now exists [].
  - rewrite decode_cons.
    destruct (next b1 r1) as [ch rest | rest | rest |] eqn:E;
      try (destruct (IH rest eq_refl) as [s ->]); eauto.
Qed.

(** With [errors='strict'] it returns a text or raises [UnicodeDecodeError]. *)
Lemma decode_strict_cases (bs : bytes) :
  (exists s, decode Strict bs = Returned s)
  \/ decode Strict bs = Raised UnicodeDecodeError.
Proof.
  induction bs as [| b1 r1 IH] using decode_ind.
  - left. now exists [].
  - rewrite decode_cons.
    destruct (next b1 r1) as [ch rest | rest | rest |] eqn:E; auto.
    destruct (IH rest eq_refl) as [[s ->] | ->]; eauto.
Qed.

(** The model's budget is never used up. *)
Lemma decode_never_starves (m : errors_mode) (bs : bytes) :
  decode m bs <> Raised FuelExhausted.
Proof.
  destruct m.
  - destruct (decode_strict_cases bs) as [[s ->] | ->]; discriminate.
  - destruct (decode_ignore_returns bs) as [s ->]. discriminate.
Qed.

Lemma decode_decoded (bs : bytes) :
  decode Ignore bs = Returned (decoded Ignore bs).
Proof.
  unfold decoded. destruct (decode_ignore_returns bs) as [s ->]. reflexivity.
Qed.

(** Every decoded character is a scalar value. *)
Lemma decoded_scalar (bs : bytes) :
  forallb is_scalar (decoded Ignore bs) = true.
Proof.
  induction bs as [| b1 r1 IH] using decode_ind; [reflexivity |].
  unfold decoded. rewrite decode_cons.
  destruct (next b1 r1) as [ch rest | rest | rest |] eqn:E; try reflexivity.
  - rewrite decode_decoded. simpl.
    apply next_char_encode in E as [-> _]. now apply IH.
  - rewrite decode_decoded. now apply IH.
  - rewrite decode_decoded. now apply IH.
Qed.

(** A well-formed prefix is decoded to the text it encodes, whatever the
    mode and whatever follows it. *)
Lemma decode_encode_app (m : errors_mode) (s : str) (rest : bytes) :
  forallb is_scalar s = true ->
  decode m (encode s ++ rest) =
  match decode m rest with
  | Returned t => Returned (s ++ t)
  | Raised e => Raised e
  end.
Proof.
  induction s as [| c s IH]; intros Hs; simpl in *.
  - now destruct (decode m rest).
  - apply andb_true_iff in Hs as [Hc Hs].
    rewrite <- app_assoc.
    destruct (next_encode_char c (encode s ++ rest) Hc) as (b1 & r1 & -> & E).
    rewrite decode_cons, E, (IH Hs). now destruct (decode m rest).
Qed.

(** Encoding then decoding gives the text back. *)
Lemma decode_encode (m : errors_mode) (s : str) :
  forallb is_scalar s = true -> decode m (encode s) = Returned s.
Proof.
  intros Hs. rewrite <- (app_nil_r (encode s)).
  rewrite (decode_encode_app m s [] Hs). simpl. now rewrite app_nil_r.
Qed.

(** What [errors='ignore'] keeps is a subsequence of the input: bytes are
    passed over, none is changed or added. *)
Lemma encode_decoded_subseq (bs : bytes) :
  subseq (encode (decoded Ignore bs)) bs.
Proof.
  induction bs as [| b1 r1 IH] using decode_ind; [constructor |].
  unfold decoded. rewrite decode_cons.
  destruct (next b1 r1) as [ch rest | rest | rest |] eqn:E.
  - rewrite decode_decoded. simpl.
    apply next_char_encode in E as [_ ->].
    apply subseq_app_same. now apply IH.
  - rewrite decode_decoded.
    destruct (next_rest_suffix b1 r1 rest) as (pre & _ & ->);
      [now rewrite E |].
    apply subseq_app_skip. now apply IH.
  - rewrite decode_decoded.
    destruct (next_rest_suffix b1 r1 rest) as (pre & _ & ->);
      [now rewrite E |].
    apply subseq_app_skip. now apply IH.
  - apply subseq_nil.
Qed.

(** A step whose look-ahead meets a byte that continues no sequence ends
    there: what follows that byte plays no part in it. *)
Lemma next_app (b1 : byte) (r1 : bytes) (x0 : byte) (x : bytes) :
  is_continuation (Byte.to_N x0) = false ->
  next b1 (r1 ++ x0 :: x) =
  match next b1 r1 with
  | Char ch rest => Char ch (rest ++ x0 :: x)
  | InvalidStart rest => InvalidStart (rest ++ x0 :: x)
  | InvalidContinuation rest => InvalidContinuation (rest ++ x0 :: x)
  | UnexpectedEnd => InvalidContinuation (x0 :: x)
  end.
Proof.
  intros Hx. unfold next.
  destruct r1 as [| b2 [| b3 [| b4 r4]]]; cbn [app]; cbv zeta;
    rewrite ?Hx; cbn [negb orb];
    repeat match goal with
      | |- context [if ?c then _ else _] => destruct c eqn:?
      end;
    try reflexivity; try discriminate.
Qed.

(** A byte that starts a character is no continuation byte. *)
Lemma next_char_lead (b1 : byte) (r1 : bytes) (ch : N) (rest : bytes) :
  next b1 r1 = Char ch rest -> is_continuation (Byte.to_N b1) = false.
Proof.
  unfold next, is_continuation.
  destruct (Byte.to_N b1 <? 128) eqn:T1.
  - intros _. apply N.ltb_lt in T1. apply andb_false_iff. left.
    apply N.leb_gt. exact T1.
  - destruct (Byte.to_N b1 <? 194) eqn:T2; [discriminate |].
    intros _. apply N.ltb_ge in T2. apply andb_false_iff. right.
    apply N.ltb_ge. lia.
Qed.

(** Decoding starts afresh at every byte that continues no sequence. *)
Lemma decoded_app (pre : bytes) (x0 : byte) (x : bytes) :
  is_continuation (Byte.to_N x0) = false ->
  decoded Ignore (pre ++ x0 :: x) =
  decoded Ignore pre ++ decoded Ignore (x0 :: x).
Proof.
  intros Hx. induction pre as [| b1 r1 IH] using decode_ind; [reflexivity |].
  unfold decoded at 1 2. cbn [app]. rewrite !decode_cons, (next_app _ _ _ _ Hx).
  destruct (next b1 r1) as [ch rest | rest | rest |] eqn:E;
    rewrite ?decode_decoded; cbn [app];
    try (rewrite (IH rest eq_refl); reflexivity).
  reflexivity.
Qed.

(** A well-formed stretch of the input is decoded as it stands, whatever
    bytes are before it and after it. *)
Lemma decoded_around (pre : bytes) (u : str) (rest : bytes) :
  forallb is_scalar u = true ->
  u <> [] ->
  decoded Ignore (pre ++ encode u ++ rest) =
  decoded Ignore pre ++ u ++ decoded Ignore rest.
Proof.
  intros Hu Hne. destruct u as [| c u']; [congruence |].
  assert (Hc : is_scalar c = true) by (simpl in Hu; now destruct (is_scalar c)).
  assert (D : decoded Ignore (encode (c :: u') ++ rest) =
              (c :: u') ++ decoded Ignore rest).
  { unfold decoded at 1.
    now rewrite (decode_encode_app Ignore (c :: u') rest Hu), decode_decoded. }
  rewrite <- D.
  change (encode (c :: u')) with (encode_char c ++ encode u').
  rewrite <- !app_assoc.
  destruct (next_encode_char c (encode u' ++ rest) Hc)
    as (b1 & r1 & -> & Hnext).
  apply decoded_app. eapply next_char_lead; eauto.
Qed.

(** The decoder on small inputs, as CPython answers them. *)
Example decode_kana :
  decode Strict [xe3; x81; x82] = Returned [0x3042].
Proof. reflexivity. Qed.

Example ignore_sequence_cut_short :
  decode Ignore [xe3; x81] = Returned []
  /\ decode Ignore [xf0; x9f; x98; x22] = Returned [34].
Proof. split; reflexivity. Qed.

Example ignore_encoded_surrogate :
  decode Ignore [xed; xa0; x80; x41] = Returned [65].
Proof. reflexivity. Qed.

Example ignore_overlong_form :
  decode Ignore [xc0; x80; x41] = Returned [65].
Proof. reflexivity. Qed.

Example strict_raises_on_corrupted_body :
  decode Strict corrupted_body = Raised UnicodeDecodeError.
Proof. vm_compute. reflexivity. Qed.

End Utf8Facts.

(* ================================================================== *)
(** * Facts about the JSON scanner *)
(* ================================================================== *)

Module JsonFacts.
Import Json.

Ltac case_if :=
  match goal with
  | |- context [if ?c then _ else _] => destruct c eqn:?
  end.

Lemma skip_ws_length (s : str) : (length (skip_ws s) <= length s)%nat.
Proof.
  induction s as [| c s IH]; simpl; [lia |].
  destruct (is_ws c); simpl; lia.
Qed.

(** A string scan reads at least the closing quote. *)
Lemma scanstring_spec (s : str) :
  forall (after_high : bool) (acc : str),
    scanstring after_high acc s <> Starved /\
    forall text rest,
      scanstring after_high acc s = Ok text rest ->
      (length rest < length s)%nat.
Proof.
  assert (G : forall n s, (length s <= n)%nat ->
              forall after_high acc,
                scanstring after_high acc s <> Starved /\
                forall text rest,
                  scanstring after_high acc s = Ok text rest ->
                  (length rest < length s)%nat).
  { induction n as [| n IH]; intros [| c r] Hlen after_high acc;
      simpl in Hlen; try lia;
      try (split; [discriminate | intros ? ? [=]]).
    cbn [scanstring]. case_if.
    { split; [discriminate | intros ? ? [= _ <-]; simpl; lia]. }
    case_if.
    - destruct r as [| e r1]; [split; [discriminate | intros ? ? [=]] |].
      case_if.
      + destruct r1 as [| h1 [| h2 [| h3 [| h4 r2]]]];
          try (split; [discriminate | intros ? ? [=]]).
        destruct (hex4 h1 h2 h3 h4) as [u |];
          [| split; [discriminate | intros ? ? [=]]].
        destruct (IH r2 ltac:(simpl in *; lia)
                     (is_high_surrogate u) (push_escaped after_high acc u))
          as [Hs Hl].
        split; [exact Hs |].
        intros text rest H. apply Hl in H. simpl. lia.
      + destruct (simple_escape e) as [x |];
          [| split; [discriminate | intros ? ? [=]]].
        destruct (IH r1 ltac:(simpl in *; lia) false (x :: acc)) as [Hs Hl].
        split; [exact Hs |].
        intros text rest H. apply Hl in H. simpl. lia.
    - case_if; [split; [discriminate | intros ? ? [=]] |].
      destruct (IH r ltac:(lia) false (c :: acc)) as [Hs Hl].
      split; [exact Hs |].
      intros text rest H. apply Hl in H. simpl. lia. }
  intros after_high acc. now apply (G (length s) s).
Qed.

Lemma scanstring_shorter (after_high : bool) (acc s text rest : str) :
  scanstring after_high acc s = Ok text rest -> (length rest < length s)%nat.
Proof. apply scanstring_spec. Qed.

Lemma scanstring_never_starves (after_high : bool) (acc s : str) :
  scanstring after_high acc s <> Starved.
Proof. apply scanstring_spec. Qed.

Lemma span_digits_length (s ds rest : str) :
  span_digits s = (ds, rest) -> (length rest <= length s)%nat.
Proof.
  revert ds rest. induction s as [| c s IH]; intros ds rest; simpl.
  - intros [= <- <-]. simpl. lia.
  - destruct (is_digit c).
    + destruct (span_digits s) as [ds' rest'] eqn:E.
      intros [= <- <-]. specialize (IH _ _ eq_refl). lia.
    + intros [= <- <-]. simpl. lia.
Qed.

Lemma strip_prefix_length (p s rest : str) :
  strip_prefix p s = Some rest -> length s = (length p + length rest)%nat.
Proof.
  revert s. induction p as [| x p IH]; intros s; simpl.
  - now intros [= ->].
  - destruct s as [| c s]; [discriminate |].
    destruct (c =? x); [| discriminate].
    intros H. apply IH in H. simpl. lia.
Qed.

Lemma match_integer_shorter (s lexeme rest : str) :
  match_integer s = Some (lexeme, rest) -> (length rest < length s)%nat.
Proof.
  unfold match_integer.
  destruct s as [| c r]; [discriminate |].
  destruct (c =? chr "-").
  - destruct r as [| d r']; [discriminate |].
    destruct (d =? chr "0"); [intros [= _ <-]; simpl; lia |].
    destruct (is_digit d); [| discriminate].
    destruct (span_digits r') as [ds rest'] eqn:E.
    intros [= _ <-]. apply span_digits_length in E. simpl. lia.
  - destruct (c =? chr "0"); [intros [= _ <-]; simpl; lia |].
    destruct (is_digit c); [| discriminate].
    destruct (span_digits r) as [ds rest'] eqn:E.
    intros [= _ <-]. apply span_digits_length in E. simpl. lia.
Qed.

Lemma match_fraction_length (s lexeme rest : str) :
  match_fraction s = (lexeme, rest) -> (length rest <= length s)%nat.
Proof.
  unfold match_fraction.
  destruct s as [| c r]; [intros [= <- <-]; simpl; lia |].
  destruct (c =? chr "."); [| intros [= <- <-]; simpl; lia].
  destruct (span_digits r) as [[| d ds] rest'] eqn:E.
  - intros [= <- <-]. simpl. lia.
  - intros [= _ <-]. apply span_digits_length in E. simpl. lia.
Qed.

Lemma match_exponent_length (s lexeme rest : str) :
  match_exponent s = (lexeme, rest) -> (length rest <= length s)%nat.
Proof.
  unfold match_exponent.
  destruct s as [| c r]; [intros [= <- <-]; simpl; lia |].
  destruct ((c =? chr "e") || (c =? chr "E"))%bool;
    [| intros [= <- <-]; simpl; lia].
  assert (G : forall sign r1,
             (length r1 <= length r)%nat ->
             match span_digits r1 with
             | ([], _) => ([], c :: r)
             | (ds, rest) => (c :: sign ++ ds, rest)
             end = (lexeme, rest) -> (length rest <= length (c :: r))%nat).
  { intros sign r1 Hr1.
    destruct (span_digits r1) as [[| d ds] rest'] eqn:E.
    - intros [= <- <-]. simpl. lia.
    - intros [= _ <-]. apply span_digits_length in E. simpl. lia. }
  destruct r as [| g r']; [apply (G [] []); simpl; lia |].
  destruct ((g =? chr "-") || (g =? chr "+"))%bool.
  - apply (G [g] r'). simpl. lia.
  - apply (G [] (g :: r')). lia.
Qed.

Lemma match_number_shorter (s lexeme rest : str) :
  match_number s = Some (lexeme, rest) -> (length rest < length s)%nat.
Proof.
  unfold match_number.
  destruct (match_integer s) as [[int r1] |] eqn:E1; [| discriminate].
  destruct (match_fraction r1) as [frac r2] eqn:E2.
  destruct (match_exponent r2) as [exp r3] eqn:E3.
  intros [= _ <-].
  apply match_integer_shorter in E1. apply match_fraction_length in E2.
  apply match_exponent_length in E3. lia.
Qed.

Lemma scan_constant_shorter (s : str) (v : value) (rest : str) :
  scan_constant s = Ok v rest -> (length rest < length s)%nat.
Proof.
  unfold scan_constant.
  repeat match goal with
    | |- context [strip_prefix ?p s] =>
        let E := fresh "E" in
        destruct (strip_prefix p s) eqn:E;
        [ intros [= _ <-]; apply strip_prefix_length in E;
          change (length p) with (length (A:=N) p) in E;
          revert E; vm_compute (length p); lia |]
    | |- context [match_number s] =>
        let E := fresh "E" in
        destruct (match_number s) as [[? ?] |] eqn:E;
        [ intros [= _ <-]; now apply match_number_shorter in E |]
    end.
  discriminate.
Qed.

Lemma scan_constant_never_starves (s : str) : scan_constant s <> Starved.
Proof.
  unfold scan_constant.
  repeat match goal with
    | |- context [strip_prefix ?p s] => destruct (strip_prefix p s)
    | |- context [match_number s] => destruct (match_number s) as [[? ?] |]
    end; discriminate.
Qed.


(** The three scanners, one step at a time. *)
Lemma scan_once_S (fuel : nat) (s : str) :
  scan_once (S fuel) s =
  match s with
  | [] => Bad
  | c :: r =>
      if c =? QUOTE then
        match scanstring false [] r with
        | Ok text rest => Ok (JString text) rest
        | Bad => Bad
        | Starved => Starved
        end
      else if c =? chr "{" then
        match skip_ws r with
        | [] => Bad
        | c' :: r' =>
            if c' =? chr "}" then Ok (JObject []) r'
            else scan_members fuel [] (c' :: r')
        end
      else if c =? chr "[" then
        match skip_ws r with
        | [] => Bad
        | c' :: r' =>
            if c' =? chr "]" then Ok (JArray []) r'
            else scan_items fuel [] (c' :: r')
        end
      else scan_constant s
  end.
Proof. reflexivity. Qed.

Lemma scan_members_S (fuel : nat) (acc : list (str * value)) (s : str) :
  scan_members (S fuel) acc s =
  match s with
  | [] => Bad
  | c :: r =>
      if negb (c =? QUOTE) then Bad
      else
        match scanstring false [] r with
        | Bad => Bad
        | Starved => Starved
        | Ok key r1 =>
            match skip_ws r1 with
            | [] => Bad
            | c1 :: r2 =>
                if negb (c1 =? chr ":") then Bad
                else
                  match scan_once fuel (skip_ws r2) with
                  | Bad => Bad
                  | Starved => Starved
                  | Ok v r3 =>
                      match skip_ws r3 with
                      | [] => Bad
                      | c3 :: r4 =>
                          if c3 =? chr "}"
                          then Ok (JObject (rev ((key, v) :: acc))) r4
                          else if c3 =? chr ","
                          then scan_members fuel ((key, v) :: acc) (skip_ws r4)
                          else Bad
                      end
                  end
            end
        end
  end.
Proof. reflexivity. Qed.

Lemma scan_items_S (fuel : nat) (acc : list value) (s : str) :
  scan_items (S fuel) acc s =
  match scan_once fuel s with
  | Bad => Bad
  | Starved => Starved
  | Ok v r1 =>
      match skip_ws r1 with
      | [] => Bad
      | c1 :: r2 =>
          if c1 =? chr "]" then Ok (JArray (rev (v :: acc))) r2
          else if c1 =? chr ","
          then scan_items fuel (v :: acc) (skip_ws r2)
          else Bad
      end
  end.
Proof. reflexivity. Qed.

(** Lengths known from the scans in the context. *)
Ltac learn_lengths :=
  repeat match goal with
    | H : scanstring _ _ _ = Ok _ _ |- _ => apply scanstring_shorter in H
    | H : scan_constant _ = Ok _ _ |- _ => apply scan_constant_shorter in H
    | H : skip_ws ?r = _ :: _ |- _ =>
        let L := fresh "L" in
        pose proof (skip_ws_length r) as L; rewrite H in L; clear H
    | |- context [skip_ws ?r] =>
        lazymatch goal with
        | _ : (length (skip_ws r) <= length r)%nat |- _ => fail
        | _ => pose proof (skip_ws_length r)
        end
    | H : context [skip_ws ?r] |- _ =>
        lazymatch goal with
        | _ : (length (skip_ws r) <= length r)%nat |- _ => fail
        | _ => pose proof (skip_ws_length r)
        end
    end;
  cbn [length] in *.

(** Every scanner that succeeds has read at least one character. *)
Lemma scan_shorter (fuel : nat) :
  (forall s v rest,
      scan_once fuel s = Ok v rest -> (length rest < length s)%nat) /\
  (forall acc s v rest,
      scan_members fuel acc s = Ok v rest -> (length rest < length s)%nat) /\
  (forall acc s v rest,
      scan_items fuel acc s = Ok v rest -> (length rest < length s)%nat).
Proof.
  induction fuel as [| fuel (IH1 & IH2 & IH3)];
    [repeat split; intros; discriminate |].
  repeat split.
  - intros s v rest. rewrite scan_once_S.
    destruct s as [| c r]; [discriminate |].
    case_if.
    { destruct (scanstring false [] r) eqn:E; intros [= _ <-].
      learn_lengths. lia. }
    case_if.
    { destruct (skip_ws r) as [| c' r'] eqn:E; [discriminate |].
      case_if; [intros [= _ <-] | intros H; apply IH2 in H];
        learn_lengths; lia. }
    case_if.
    { destruct (skip_ws r) as [| c' r'] eqn:E; [discriminate |].
      case_if; [intros [= _ <-] | intros H; apply IH3 in H];
        learn_lengths; lia. }
    intros H. learn_lengths. exact H.
  - intros acc s v rest. rewrite scan_members_S.
    destruct s as [| c r]; [discriminate |].
    case_if; [discriminate |].
    destruct (scanstring false [] r) as [key r1 | |] eqn:E1; try discriminate.
    destruct (skip_ws r1) as [| c1 r2] eqn:E2; [discriminate |].
    case_if; [discriminate |].
    destruct (scan_once fuel (skip_ws r2)) as [w r3 | |] eqn:E3;
      try discriminate.
    destruct (skip_ws r3) as [| c3 r4] eqn:E4; [discriminate |].
    apply IH1 in E3.
    case_if; [intros [= _ <-] |
              case_if; [intros H; apply IH2 in H | discriminate]];
      learn_lengths; lia.
  - intros acc s v rest. rewrite scan_items_S.
    destruct (scan_once fuel s) as [w r1 | |] eqn:E1; try discriminate.
    destruct (skip_ws r1) as [| c1 r2] eqn:E2; [discriminate |].
    apply IH1 in E1.
    case_if; [intros [= _ <-] |
              case_if; [intros H; apply IH3 in H | discriminate]];
      learn_lengths; lia.
Qed.

(** A budget of twice the length of the input, and two more, is never used
    up. *)
Lemma scan_never_starves (fuel : nat) :
  (forall s, (2 * length s + 1 <= fuel)%nat -> scan_once fuel s <> Starved) /\
  (forall acc s,
      (2 * length s + 1 <= fuel)%nat -> scan_members fuel acc s <> Starved) /\
  (forall acc s,
      (2 * length s + 2 <= fuel)%nat -> scan_items fuel acc s <> Starved).
Proof.
  induction fuel as [| fuel (IH1 & IH2 & IH3)];
    [repeat split; intros; lia |].
  repeat split.
  - intros s Hlen. rewrite scan_once_S.
    destruct s as [| c r]; [discriminate |]. cbn [length] in Hlen.
    case_if.
    { pose proof (scanstring_never_starves false [] r).
      destruct (scanstring false [] r); congruence. }
    case_if.
    { destruct (skip_ws r) as [| c' r'] eqn:E; [discriminate |].
      case_if; [discriminate |]. apply IH2. learn_lengths. lia. }
    case_if.
    { destruct (skip_ws r) as [| c' r'] eqn:E; [discriminate |].
      case_if; [discriminate |]. apply IH3. learn_lengths. lia. }
    apply scan_constant_never_starves.
  - intros acc s Hlen. rewrite scan_members_S.
    destruct s as [| c r]; [discriminate |]. cbn [length] in Hlen.
    case_if; [discriminate |].
    pose proof (scanstring_never_starves false [] r).
    destruct (scanstring false [] r) as [key r1 | |] eqn:E1;
      try congruence.
    destruct (skip_ws r1) as [| c1 r2] eqn:E2; [discriminate |].
    case_if; [discriminate |].
    learn_lengths.
    assert (scan_once fuel (skip_ws r2) <> Starved) by (apply IH1; lia).
    destruct (scan_once fuel (skip_ws r2)) as [w r3 | |] eqn:E3;
      try congruence.
    destruct (skip_ws r3) as [| c3 r4] eqn:E4; [discriminate |].
    apply (proj1 (scan_shorter fuel)) in E3.
    case_if; [discriminate |]. case_if; [| discriminate].
    apply IH2. learn_lengths. lia.
  - intros acc s Hlen. rewrite scan_items_S.
    assert (scan_once fuel s <> Starved) by (apply IH1; lia).
    destruct (scan_once fuel s) as [w r1 | |] eqn:E1; try congruence.
    destruct (skip_ws r1) as [| c1 r2] eqn:E2; [discriminate |].
    apply (proj1 (scan_shorter fuel)) in E1.
    case_if; [discriminate |]. case_if; [| discriminate].
    apply IH3. learn_lengths. lia.
Qed.

(** [loads] returns a value or raises [JSONDecodeError]; the budget of the
    model is never used up. *)
Lemma loads_cases (s : str) :
  (exists v, loads s = Returned v) \/ loads s = Raised JSONDecodeError.
Proof.
  unfold loads.
  assert (H : scan_once (2 * length s + 2) (skip_ws s) <> Starved).
  { apply (proj1 (scan_never_starves _)).
    pose proof (skip_ws_length s). lia. }
  destruct (startswith s [0xFEFF]); [now right |].
  destruct (scan_once (2 * length s + 2) (skip_ws s)) as [v rest | |];
    [destruct (skip_ws rest); eauto | now right | congruence].
Qed.

Lemma loads_never_starves (s : str) : loads s <> Raised FuelExhausted.
Proof. destruct (loads_cases s) as [[v ->] | ->]; discriminate. Qed.

(** [loads] on small inputs, as the json module answers them. *)
Example loads_last_key_counts :
  loads (lit "{ }") = Returned (JObject [])
  /\ match loads (decoded_json "{'a': 1, 'a': [true, null]}") with
     | Returned (JObject members) =>
         get members (lit "a") JNull = JArray [JBool true; JNull]
     | _ => False
     end.
Proof. split; vm_compute; reflexivity. Qed.

Example loads_surrogate_pair :
  loads (decoded_json "'\ud83d\ude00'") = Returned (JString [0x1F600])
  /\ loads (decoded_json "'\ud83d'") = Returned (JString [0xD83D]).
Proof. split; vm_compute; reflexivity. Qed.

Example loads_rejects :
  Forall (fun text => loads (decoded_json text) = Raised JSONDecodeError)
    [ ""; "[1,]"; "{'a':1,}"; "01"; "1."; "-"; "nul"; "{a:1}"; "'abc";
      "[1 2]"; "{'a':1}x"; "'\x'"; "'\u12G4'" ]%string.
Proof. repeat constructor. Qed.

End JsonFacts.

(* ================================================================== *)
(** * Facts about the string builtins *)
(* ================================================================== *)

Module PyFacts.

Lemma eqb_eq (a b : str) : eqb a b = true <-> a = b.
Proof.
  revert b. induction a as [| x a IH]; intros [| y b]; simpl;
    try (split; [discriminate | congruence]); [tauto |].
  rewrite andb_true_iff, N.eqb_eq, IH. split; [intros [-> ->] | intros [=]]; auto.
Qed.

Lemma eqb_refl (a : str) : eqb a a = true.
Proof. now apply eqb_eq. Qed.

Lemma startswith_app (p r : str) : startswith (p ++ r) p = true.
Proof.
  induction p as [| x p IH]; simpl; [reflexivity |].
  now rewrite N.eqb_refl.
Qed.

Lemma startswith_length (s p : str) :
  startswith s p = true -> (length p <= length s)%nat.
Proof.
  revert s. induction p as [| x p IH]; intros [| c s]; simpl;
    try discriminate; try lia.
  rewrite andb_true_iff. intros [_ H]. apply IH in H. lia.
Qed.

(** A prefix of [a] is a prefix of [a ++ r]. *)
Lemma startswith_app_l (a r p : str) :
  startswith a p = true -> startswith (a ++ r) p = true.
Proof.
  revert a. induction p as [| x p IH]; intros [| c a]; simpl;
    try discriminate; auto.
  rewrite !andb_true_iff. intros [-> H]. auto.
Qed.

(** A prefix of [a ++ x :: r] that is no prefix of [a] runs over [x]. *)
Lemma startswith_straddle (a : str) (x : N) (r p : str) :
  startswith (a ++ x :: r) p = true ->
  startswith a p = true \/ nth_error p (length a) = Some x.
Proof.
  revert p. induction a as [| c a IH]; intros [| y p]; simpl; auto.
  - rewrite andb_true_iff, N.eqb_eq. intros [-> _]. now right.
  - rewrite andb_true_iff. intros [-> H]. simpl.
    destruct (IH p H) as [-> | E]; auto.
Qed.

(** The scan of [replace], one position at a time and without its counter. *)
Lemma replace_from_skip (old new : str) (k : nat) (s : str) :
  replace_from old new k s = replace_from old new O (skipn k s).
Proof.
  revert k. induction s as [| c s IH]; intros [| k]; simpl; auto.
Qed.

Lemma replace_from_cons (old new : str) (c : N) (s : str) :
  old <> [] ->
  replace_from old new O (c :: s) =
  if startswith (c :: s) old
  then new ++ replace_from old new O (skipn (length old) (c :: s))
  else c :: replace_from old new O s.
Proof.
  intros Hold. cbn [replace_from].
  destruct (startswith (c :: s) old); [| reflexivity].
  rewrite replace_from_skip.
  destruct old as [| x old]; [congruence | reflexivity].
Qed.

(** A scan does not see past a character that [old] has only at its head,
    if at all: the text before it and the text from it on are scanned
    apart. *)
Lemma replace_from_app (old new a r : str) :
  old <> [] ->
  match r with
  | [] => True
  | x :: _ => ~ In x (tl old)
  end ->
  replace_from old new O (a ++ r) =
  replace_from old new O a ++ replace_from old new O r.
Proof.
  intros Hold Hr.
  assert (G : forall n a, (length a <= n)%nat ->
              replace_from old new O (a ++ r) =
              replace_from old new O a ++ replace_from old new O r).
  { induction n as [| n IH]; intros [| c a'] Hlen; simpl in Hlen;
      try reflexivity; try lia.
    change ((c :: a') ++ r) with (c :: (a' ++ r)).
    rewrite !replace_from_cons by exact Hold.
    destruct (startswith (c :: a') old) eqn:E.
    - change (c :: a' ++ r) with ((c :: a') ++ r).
      rewrite (startswith_app_l _ r _ E).
      pose proof (startswith_length _ _ E) as L.
      rewrite skipn_app.
      replace (length old - length (c :: a'))%nat with O by lia.
      rewrite skipn_O, IH, app_assoc; [reflexivity |].
      rewrite length_skipn. destruct old; [congruence |]. simpl in *. lia.
    - destruct (startswith (c :: a' ++ r) old) eqn:E'.
      + exfalso. destruct r as [| x r'].
        * rewrite app_nil_r in E'. congruence.
        * change (c :: a' ++ x :: r') with ((c :: a') ++ x :: r') in E'.
          apply startswith_straddle in E' as [E' | E']; [congruence |].
          destruct old as [| y old]; [congruence |]. simpl in E', Hr.
          apply Hr. eapply nth_error_In. exact E'.
      + rewrite IH by lia. reflexivity. }
  exact (G (length a) a (Nat.le_refl _)).
Qed.

End PyFacts.

(* ================================================================== *)
(** * Facts about the script *)
(* ================================================================== *)

Section ScriptFacts.

Variable ollama : endpoint.

(** A call of [translate] sends one request, and its result is what the
    exchange decides: nothing else of the world is read or changed. *)
Lemma translate_run (text model_name : str) (w : world) :
  translate ollama text model_name w =
  (verdict (ollama (length (sent w)) (translation_request text model_name)),
   {| sent := sent w ++ [translation_request text model_name];
      files := files w; naps := naps w |}).
Proof.
  unfold verdict, translate, try_except, bind, requests_post, lift, ret,
    translation_request.
  cbn [sent initial_world length].
  destruct (ollama (length (sent w)) _) as [r | e]; [| reflexivity].
  unfold raise_for_status, raise, ret.
  destruct ((400 <=? status_code r) && (status_code r <? 600))%bool;
    [reflexivity |].
  destruct (Utf8.decode Utf8.Ignore (content r)) as [s | e];
    [| destruct e; reflexivity].
  destruct (Json.loads s) as [v | e]; [| destruct e; reflexivity].
  destruct (method_get v (lit "response") (JString NO_RESULT)) as [field | e];
    [| destruct e; reflexivity].
  destruct (method_strip field) as [t | e]; [| destruct e; reflexivity].
  reflexivity.
Qed.

(** The same for the function of the script, which returns the text. *)
Lemma translate_text_run (text model_name : str) (w : world) :
  translate_text_with_ollama ollama text model_name w =
  (match verdict (ollama (length (sent w))
                    (translation_request text model_name)) with
   | Returned r => Returned (text_of r)
   | Raised e => Raised e
   end,
   {| sent := sent w ++ [translation_request text model_name];
      files := files w; naps := naps w |}).
Proof.
  unfold translate_text_with_ollama, bind. rewrite translate_run.
  now destruct (verdict _).
Qed.

End ScriptFacts.

Lemma verdict_fails (e : request_error) :
  verdict (Fails e) = Returned (Failure CONNECTION_MESSAGE).
Proof. reflexivity. Qed.

(** The result of an exchange that the service answers. *)
Lemma verdict_answers (r : response) :
  verdict (Answers r) =
  if status_ok (status_code r) then
    match Json.loads (Utf8.decoded Utf8.Ignore (content r)) with
    | Raised _ => Returned (Failure PARSE_MESSAGE)
    | Returned (JObject members) =>
        match Json.get members (lit "response") (JString NO_RESULT) with
        | JString text => Returned (Success (remove_unwanted (strip text)))
        | _ => Raised AttributeError
        end
    | Returned _ => Raised AttributeError
    end
  else Returned (Failure CONNECTION_MESSAGE).
Proof.
  unfold verdict, translate, try_except, bind, requests_post, lift, ret,
    status_ok.
  cbn [sent initial_world length fst].
  unfold raise_for_status, raise, ret.
  destruct ((400 <=? status_code r) && (status_code r <? 600))%bool;
    [reflexivity |].
  cbn [negb]. rewrite Utf8Facts.decode_decoded.
  destruct (JsonFacts.loads_cases (Utf8.decoded Utf8.Ignore (content r)))
    as [[v ->] | ->]; [| reflexivity].
  destruct v as [| b | lexeme | s | items | members]; try reflexivity.
  cbn [method_get].
  destruct (Json.get members (lit "response") (JString NO_RESULT));
    reflexivity.
Qed.

Lemma get_absent (members : list (str * value)) (key : str) (default : value) :
  ~ In key (map fst members) -> Json.get members key default = default.
Proof.
  revert default. induction members as [| [k v] members IH];
    intros default Hkey; simpl in *; [reflexivity |].
  destruct (eqb k key) eqn:E.
  - apply PyFacts.eqb_eq in E. tauto.
  - apply IH. tauto.
Qed.

(** The result of a mechanically successful exchange. *)
Lemma verdict_generates (o : http_outcome) (generated : str) :
  generates o generated ->
  verdict o = Returned (Success (remove_unwanted (strip generated))).
Proof.
  intros (r & s & members & -> & Hstatus & Hdecode & Hloads & Hget).
  rewrite verdict_answers, Hstatus.
  unfold Utf8.decoded. rewrite Hdecode, Hloads, Hget. reflexivity.
Qed.

(** A Failure carries one of the two messages of the [except] clauses. *)
Lemma verdict_failure_reason (o : http_outcome) (reason : str) :
  verdict o = Returned (Failure reason) ->
  reason = CONNECTION_MESSAGE \/ reason = PARSE_MESSAGE.
Proof.
  destruct o as [r | e].
  - rewrite verdict_answers.
    destruct (status_ok (status_code r)); [| intros [= <-]; now left].
    destruct (Json.loads _) as [[| | | | | members] | e];
      try discriminate; [| intros [= <-]; now right].
    destruct (Json.get members _ _); discriminate.
  - rewrite verdict_fails. intros [= <-]. now left.
Qed.

(** What one exchange comes to, in full: [translate] returns a Success or a
    Failure, or the service sent valid JSON of another shape than an object
    with a text in [response], and the call raises [AttributeError]. *)
Lemma verdict_cases (o : http_outcome) :
  (exists r, verdict o = Returned r)
  \/ (verdict o = Raised AttributeError
      /\ exists resp v,
           o = Answers resp
           /\ status_ok (status_code resp) = true
           /\ Json.loads (Utf8.decoded Utf8.Ignore (content resp)) = Returned v
           /\ forall members text,
                v = JObject members ->
                Json.get members (lit "response") (JString NO_RESULT)
                  <> JString text).
Proof.
  destruct o as [resp | e]; [| left; eexists; apply verdict_fails].
  rewrite verdict_answers.
  destruct (status_ok (status_code resp)) eqn:Hstatus; [| eauto].
  destruct (Json.loads _) as [v | e] eqn:Hloads; [| eauto].
  destruct v as [| b | lexeme | s | items | members];
    try (right; split; [reflexivity |];
         exists resp; eexists; repeat split; eauto; discriminate).
  destruct (Json.get members _ _) as [| b | lexeme | s | items | members']
    eqn:Hget; eauto;
    right; (split; [reflexivity |]);
    exists resp, (JObject members); repeat split; auto;
    intros ? ? [= <-]; congruence.
Qed.

(** The exchanges that the specification lists end in a Success or a
    Failure: no connection, no answer in time, an error status, a body that
    is no JSON, a JSON object without the text field or with a text in
    it. *)
Lemma translate_returns_on_listed_exchanges
  (ollama : endpoint) (text model_name : str) (w : world) :
  let o := ollama (length (sent w)) (translation_request text model_name) in
  (exists e, o = Fails e)
  \/ (exists r, o = Answers r /\ status_ok (status_code r) = false)
  \/ (exists r, o = Answers r
                /\ Json.loads (Utf8.decoded Utf8.Ignore (content r))
                   = Raised JSONDecodeError)
  \/ (exists generated, generates o generated) ->
  exists r, fst (translate ollama text model_name w) = Returned r.
Proof.
  intros o H. rewrite translate_run. cbn [fst]. fold o.
  destruct H as [[e ->] | [(r & -> & Hs) | [(r & -> & Hl) | [g Hg]]]].
  - eexists. apply verdict_fails.
  - rewrite verdict_answers, Hs. eauto.
  - rewrite verdict_answers, Hl. destruct (status_ok _); eauto.
  - rewrite (verdict_generates _ _ Hg). eauto.
Qed.

(** The first pass of the cleanup leaves the second phrase where it is. *)
Lemma first_pass_keeps_second_phrase (b : str) :
  replace (SECOND_PHRASE ++ b) FIRST_PHRASE [] =
  SECOND_PHRASE ++ replace b FIRST_PHRASE [].
Proof.
  let p1 := eval vm_compute in FIRST_PHRASE in
  let p2 := eval vm_compute in SECOND_PHRASE in
  change FIRST_PHRASE with p1; change SECOND_PHRASE with p2.
  reflexivity.
Qed.

(** The second pass removes the second phrase at the head of a text. *)
Lemma second_pass_removes_second_phrase (b : str) :
  replace (SECOND_PHRASE ++ b) SECOND_PHRASE [] = replace b SECOND_PHRASE [].
Proof.
  let p2 := eval vm_compute in SECOND_PHRASE in
  change SECOND_PHRASE with p2.
  reflexivity.
Qed.

(** Both phrases begin with an [H] that they have nowhere else, so a pass
    over a text that has the second phrase in it is a pass over what is
    before it and one over the rest. *)
Lemma pass_splits_at_second_phrase (phrase a b : str) :
  phrase = FIRST_PHRASE \/ phrase = SECOND_PHRASE ->
  replace (a ++ SECOND_PHRASE ++ b) phrase [] =
  replace a phrase [] ++ replace (SECOND_PHRASE ++ b) phrase [].
Proof.
  intros H.
  assert (Hne : phrase <> []) by (destruct H as [-> | ->]; discriminate).
  assert (Hhead : ~ In (chr "H") (tl phrase)).
  { destruct H as [-> | ->]; vm_compute; intuition discriminate. }
  unfold replace. destruct phrase as [| x phrase']; [congruence |].
  apply PyFacts.replace_from_app; [discriminate |].
  exact Hhead.
Qed.

(** The cleanup of a text with the second phrase in it is the cleanup of
    what is before the phrase and of what is after it. *)
Lemma remove_unwanted_second_phrase (a b : str) :
  remove_unwanted (a ++ SECOND_PHRASE ++ b) =
  remove_unwanted a ++ remove_unwanted b.
Proof.
  unfold remove_unwanted, unwanted_phrases. cbn [fold_left].
  rewrite (pass_splits_at_second_phrase FIRST_PHRASE) by now left.
  rewrite first_pass_keeps_second_phrase.
  rewrite (pass_splits_at_second_phrase SECOND_PHRASE) by now right.
  now rewrite second_pass_removes_second_phrase.
Qed.

Lemma file_get_set (name text : str) (fs : list (str * str)) :
  file_get name (file_set name text fs) = text.
Proof.
  induction fs as [| [n t] fs IH]; simpl.
  - now rewrite PyFacts.eqb_refl.
  - destruct (eqb n name) eqn:E; simpl; now rewrite E.
Qed.

Section Loop.

Variable ollama : endpoint.
Variable textwrap_fill : str -> N -> str.
Variable f model_name : str.
Variable total : nat.

(** The loop over papers whose requests all end in a result that can be
    written: every paper is translated and written, in order. *)
Lemma translate_each_settled :
  forall (n : nat) (results : list paper) (outcomes : list TranslationResult),
    settled ollama textwrap_fill model_name n results outcomes ->
    forall (i : nat) (w : world),
      length (sent w) = n ->
      exists w',
        translate_each ollama textwrap_fill f model_name total i results w
          = (Returned tt, w')
        /\ sent w' =
           sent w ++ map (fun p => translation_request (abstract_of p) model_name)
                         results
        /\ file_get f (files w') =
           file_get f (files w) ++ blocks textwrap_fill results outcomes.
Proof.
  induction 1 as [n | n p ps r rs Hverdict Hwrite _ IH]; intros i w Hn.
  - exists w. cbn. now rewrite !app_nil_r.
  - cbn [translate_each]. unfold bind at 1. rewrite translate_text_run.
    fold (abstract_of p). rewrite Hn, Hverdict.
    unfold bind at 1, file_write. rewrite Hwrite.
    cbn [sent files naps].
    set (w1 := {| sent := sent w ++ [translation_request (abstract_of p) model_name];
                  files := file_set f
                             (file_get f (files w)
                              ++ output_content p (textwrap_fill (text_of r) 50))
                             (files w);
                  naps := naps w |}).
    assert (Hpause : exists w2,
               (if (i <? total - 1)%nat then time_sleep 1 else ret tt) w1
               = (Returned tt, w2)
               /\ sent w2 = sent w1 /\ files w2 = files w1).
    { destruct (i <? total - 1)%nat; eexists; repeat split. }
    destruct Hpause as (w2 & Hpause & Hsent & Hfiles).
    unfold bind at 1. rewrite Hpause.
    destruct (IH (S i) w2) as (w' & Hrun & Hsent' & Hfile').
    { rewrite Hsent. subst w1. cbn [sent]. rewrite length_app. simpl. lia. }
    exists w'. split; [exact Hrun | split].
    + rewrite Hsent', Hsent. subst w1. cbn [sent map].
      now rewrite <- app_assoc.
    + rewrite Hfile', Hfiles. subst w1. cbn [files blocks].
      now rewrite file_get_set, <- app_assoc.
Qed.

End Loop.

Section Orchestrator.

Variable ollama : endpoint.
Variable arxiv_results : str -> N -> outcome (list paper).
Variable textwrap_fill : str -> N -> str.
Variable lower : str -> str.
Variable openable : str -> bool.

(** The whole function, for a file that can be opened and a search that
    finds papers whose requests all end in a result that can be written: the
    output file holds the block of every paper, in order, and nothing
    else. *)
Lemma search_and_translate_papers_writes_all
  (query : str) (max_results : N) (model_name : str)
  (results : list paper) (outcomes : list TranslationResult) (w : world) :
  arxiv_results query max_results = Returned results ->
  results <> [] ->
  openable (output_filename lower query) = true ->
  settled ollama textwrap_fill model_name (length (sent w)) results outcomes ->
  exists w',
    search_and_translate_papers ollama arxiv_results textwrap_fill lower
      openable query max_results model_name w = (Returned tt, w')
    /\ file_get (output_filename lower query) (files w') =
       blocks textwrap_fill results outcomes.
Proof.
  intros Hsearch Hne Hopen Hsettled.
  unfold search_and_translate_papers, try_except, bind at 1, lift.
  rewrite Hsearch.
  destruct results as [| p ps]; [congruence |].
  unfold bind, file_open_w. rewrite Hopen.
  set (w0 := {| sent := sent w;
                files := file_set (output_filename lower query) [] (files w);
                naps := naps w |}).
  destruct (translate_each_settled ollama textwrap_fill
              (output_filename lower query) model_name (length (p :: ps))
              (length (sent w)) (p :: ps) outcomes Hsettled O w0 eq_refl)
    as (w' & Hrun & _ & Hfile).
  exists w'. rewrite Hrun. split; [reflexivity |].
  rewrite Hfile. subst w0. cbn [files]. now rewrite file_get_set.
Qed.

End Orchestrator.

(** An exception that leaves [translate] ends the loop: with a service that
    answers [[]] the first paper raises, no block is written for any paper,
    and the handler of the function takes the exception. *)
Lemma unexpected_json_stops_loop :
  fst (translate_each (answering array_body) no_wrap (lit "out.txt") LLAMA3
         2 0 two_papers initial_world) = Raised AttributeError
  /\ (let w' := snd (search_and_translate_papers (answering array_body)
                       (fun _ _ => Returned two_papers) no_wrap (fun s => s)
                       (fun _ => true) (lit "graph") 3 LLAMA3 initial_world) in
      length (sent w') = 1%nat
      /\ file_get (output_filename (fun s => s) (lit "graph")) (files w') = []).
Proof. repeat split; vm_compute; reflexivity. Qed.

(* ================================================================== *)
(** * The properties of the specification *)
(* ================================================================== *)

(** C1, as the code has it. The claim says that [translate] returns Success
    or Failure and never raises, whatever the endpoint does. Against a
    service that answers with status 200 and the body [[]] (valid JSON with
    no text field) the call raises [AttributeError], which neither [except]
    clause catches; the same happens when the text field holds [null]. *)
Theorem translate_raises_on_unexpected_json :
  forall (text model_name : str) (w : world),
    fst (translate (answering array_body) text model_name w)
      = Raised AttributeError
    /\ fst (translate (answering null_field_body) text model_name w)
      = Raised AttributeError
    /\ fst (translate_text_with_ollama (answering array_body) text model_name w)
      = Raised AttributeError.
Proof.
  intros text model_name w.
  rewrite !translate_run, translate_text_run. cbn [fst answering].
  repeat split; vm_compute; reflexivity.
Qed.

(** C2, where the claim fails. The claim says that [is_translation_error]
    tells every Failure from the other outputs of the engine. Against a
    service whose model writes a text that starts with the marker, the
    result is a Success on which [is_translation_error] is true: the
    predicate does not hold of Failures only. *)
Lemma marker_does_not_single_out_failures :
  (exists text,
      fst (translate (answering marker_body) SOME_ABSTRACT LLAMA3 initial_world)
        = Returned (Success text)
      /\ is_translation_error text = true)
  /\ ~ (forall (ollama : endpoint) (text model_name : str) (w w' : world)
               (r : TranslationResult),
           translate ollama text model_name w = (Returned r, w') ->
           (is_translation_error (text_of r) = true <->
            exists reason, r = Failure reason)).
Proof.
  assert (E : exists text,
             fst (translate (answering marker_body) SOME_ABSTRACT LLAMA3
                    initial_world) = Returned (Success text)
             /\ is_translation_error text = true).
  { eexists. split; vm_compute; reflexivity. }
  split; [exact E |].
  intros H. destruct E as (text & Hrun & Hmarker).
  destruct (translate (answering marker_body) SOME_ABSTRACT LLAMA3
              initial_world) as [o w'] eqn:T.
  cbn [fst] in Hrun. subst o.
  apply H in T. cbn [text_of] in T.
  apply T in Hmarker as [reason Hr]. discriminate Hr.
Qed.

(** C2, amended. Every Failure that [translate] returns carries a reason
    that begins with the marker [翻訳エラー] (it is one of the two messages of
    the [except] clauses), so [is_translation_error] is true on every
    Failure and a result on which it is false is a Success. It is also true
    on a Success whose text begins with the marker, so it recognises every
    Failure without telling Failures from all the other outputs. *)
Theorem failure_carries_marker :
  forall (ollama : endpoint) (text model_name : str) (w w' : world)
         (r : TranslationResult),
    translate ollama text model_name w = (Returned r, w') ->
    (forall reason,
        r = Failure reason ->
        (reason = CONNECTION_MESSAGE \/ reason = PARSE_MESSAGE)
        /\ startswith reason ERROR_MARKER = true
        /\ is_translation_error reason = true)
    /\ (is_translation_error (text_of r) = false -> exists t, r = Success t)
    /\ (forall t,
          r = Success t -> is_translation_error t = startswith t ERROR_MARKER).
Proof.
  intros ollama text model_name w w' r Hrun.
  rewrite translate_run in Hrun. injection Hrun as Hverdict _.
  assert (F : forall reason,
             r = Failure reason ->
             (reason = CONNECTION_MESSAGE \/ reason = PARSE_MESSAGE)
             /\ startswith reason ERROR_MARKER = true
             /\ is_translation_error reason = true).
  { intros reason ->.
    destruct (verdict_failure_reason _ _ Hverdict) as [-> | ->];
      (split; [auto | split; vm_compute; reflexivity]). }
  split; [exact F | split].
  - destruct r as [t | reason]; [eauto |].
    cbn [text_of]. intros Hfalse.
    destruct (F reason eq_refl) as (_ & _ & Htrue). congruence.
  - intros t _. reflexivity.
Qed.

Lemma failure_carries_marker_witness :
  startswith CONNECTION_MESSAGE ERROR_MARKER = true
  /\ is_translation_error CONNECTION_MESSAGE = true.
Proof.
  refine (proj2 (proj1 (failure_carries_marker refusing SOME_ABSTRACT LLAMA3
                          initial_world
                          (snd (translate refusing SOME_ABSTRACT LLAMA3
                                  initial_world))
                          (Failure CONNECTION_MESSAGE) _)
                   CONNECTION_MESSAGE eq_refl)).
  reflexivity.
Defined.

(** C3, as the code has it. The claim says that the body
    [{"response": "Here is the translation: こんにちは"}] yields exactly
    [こんにちは] with no whitespace around it. The code trims first and
    removes the phrase afterwards, so the space that followed the phrase
    stays at the head of the text it returns. *)
Theorem greeting_keeps_leading_space :
  forall (text model_name : str) (w : world),
    fst (translate (answering greeting_body) text model_name w)
      = Returned (Success (lit " こんにちは"))
    /\ lit " こんにちは" <> lit "こんにちは"
    /\ strip (lit " こんにちは") = lit "こんにちは".
Proof.
  intros text model_name w. rewrite translate_run. cbn [fst answering].
  repeat split; try (vm_compute; reflexivity).
  vm_compute. discriminate.
Qed.

(** C4. When the endpoint answers with a JSON object that has no
    [response] key, [translate] returns the sentinel [翻訳結果がありません。]
    as a Success, and [is_translation_error] is false on it. *)
Theorem missing_field_gives_sentinel :
  forall (ollama : endpoint) (text model_name : str) (w : world)
         (r : response) (s : str) (members : list (str * value)),
    ollama (length (sent w)) (translation_request text model_name) = Answers r ->
    status_ok (status_code r) = true ->
    Utf8.decode Utf8.Ignore (content r) = Returned s ->
    Json.loads s = Returned (JObject members) ->
    ~ In (lit "response") (map fst members) ->
    fst (translate ollama text model_name w) = Returned (Success NO_RESULT)
    /\ fst (translate_text_with_ollama ollama text model_name w)
       = Returned NO_RESULT
    /\ is_translation_error NO_RESULT = false.
Proof.
  intros ollama text model_name w r s members Hanswer Hstatus Hdecode Hloads
    Habsent.
  assert (V : verdict (Answers r) = Returned (Success NO_RESULT)).
  { rewrite (verdict_generates (Answers r) NO_RESULT).
    - vm_compute. reflexivity.
    - exists r, s, members. repeat split; auto.
      now apply get_absent. }
  rewrite translate_run, translate_text_run, Hanswer, V. cbn [fst text_of].
  split; [reflexivity | split; [reflexivity | vm_compute; reflexivity]].
Qed.

Lemma missing_field_gives_sentinel_witness :
  fst (translate (answering no_field_body) SOME_ABSTRACT LLAMA3 initial_world)
    = Returned (Success NO_RESULT)
  /\ fst (translate_text_with_ollama (answering no_field_body) SOME_ABSTRACT
            LLAMA3 initial_world)
     = Returned NO_RESULT
  /\ is_translation_error NO_RESULT = false.
Proof.
  apply (missing_field_gives_sentinel (answering no_field_body) SOME_ABSTRACT
           LLAMA3 initial_world
           {| status_code := 200; content := no_field_body |}
           (Utf8.decoded Utf8.Ignore no_field_body)
           [(lit "model", JString (lit "llama3")); (lit "done", JBool true)]).
  - reflexivity.
  - reflexivity.
  - vm_compute. reflexivity.
  - vm_compute. reflexivity.
  - vm_compute. intros [H | [H | []]]; discriminate H.
Defined.

(** C5. Whatever bytes the endpoint returns, decoding them with
    [errors='ignore'] never raises. The text [s] it gives is made of scalar
    values whose encoding is a subsequence of the bytes received and is
    valid UTF-8: bytes are dropped, none is changed. Every well-formed
    stretch of the body is in [s] as it stands, whatever is before it and
    after it. The call behaves as it does on the bytes that remain, and when
    [s] is a JSON object its text field is extracted and cleaned. *)
Theorem decoding_drops_invalid_bytes :
  forall (ollama : endpoint) (text model_name : str) (w : world)
         (status : N) (bs : Utf8.bytes),
    ollama (length (sent w)) (translation_request text model_name)
      = Answers {| status_code := status; content := bs |} ->
    exists s,
      Utf8.decode Utf8.Ignore bs = Returned s
      /\ subseq (Utf8.encode s) bs
      /\ Utf8.decode Utf8.Strict (Utf8.encode s) = Returned s
      /\ (forall pre u rest,
            encodable u = true -> u <> [] ->
            bs = pre ++ Utf8.encode u ++ rest ->
            s = Utf8.decoded Utf8.Ignore pre ++ u
                ++ Utf8.decoded Utf8.Ignore rest)
      /\ (forall (ollama' : endpoint) (w' : world),
            ollama' (length (sent w')) (translation_request text model_name)
              = Answers {| status_code := status; content := Utf8.encode s |} ->
            fst (translate ollama' text model_name w')
            = fst (translate ollama text model_name w))
      /\ (forall members generated,
            status_ok status = true ->
            Json.loads s = Returned (JObject members) ->
            Json.get members (lit "response") (JString NO_RESULT)
              = JString generated ->
            fst (translate ollama text model_name w)
            = Returned (Success (remove_unwanted (strip generated)))).
Proof.
  intros ollama text model_name w status bs Hanswer.
  exists (Utf8.decoded Utf8.Ignore bs).
  pose proof (Utf8Facts.decoded_scalar bs) as Hscalar.
  split; [apply Utf8Facts.decode_decoded |].
  split; [apply Utf8Facts.encode_decoded_subseq |].
  split; [now apply Utf8Facts.decode_encode |].
  split; [| split].
  - intros pre u rest Hu Hne ->. now apply Utf8Facts.decoded_around.
  - intros ollama' w' Hanswer'.
    rewrite !translate_run, Hanswer, Hanswer'. cbn [fst].
    rewrite !verdict_answers. cbn [status_code content].
    unfold Utf8.decoded at 1.
    now rewrite (Utf8Facts.decode_encode Utf8.Ignore _ Hscalar).
  - intros members generated Hstatus Hloads Hget.
    rewrite translate_run, Hanswer. cbn [fst].
    apply verdict_generates.
    exists {| status_code := status; content := bs |},
      (Utf8.decoded Utf8.Ignore bs), members.
    repeat split; auto. apply Utf8Facts.decode_decoded.
Qed.

Lemma decoding_drops_invalid_bytes_witness :
  fst (translate (answering corrupted_body) SOME_ABSTRACT LLAMA3 initial_world)
  = Returned (Success (lit "こんにちは")).
Proof.
  destruct (decoding_drops_invalid_bytes (answering corrupted_body)
              SOME_ABSTRACT LLAMA3 initial_world 200 corrupted_body eq_refl)
    as (s & Hdecode & _ & _ & _ & _ & Hparse).
  vm_compute in Hdecode. injection Hdecode as <-.
  rewrite (Hparse [(lit "response", JString (lit "こんにちは"))]
             (lit "こんにちは"));
    vm_compute; reflexivity.
Defined.

(** C6. For every text, the empty one included, and every model name,
    [translate] issues exactly one POST request: to the endpoint URL, with
    a timeout of 180 seconds and the body [{model, prompt, stream: false}],
    where the prompt is the fixed template with the text in its one slot,
    between the line [--- English Abstract ---] and the line
    [--- End of Abstract ---]. *)
Theorem translate_sends_one_request :
  forall (ollama : endpoint) (text model_name : str) (w : world),
    sent (snd (translate ollama text model_name w)) =
    sent w ++
      [ {| url := OLLAMA_API_URL;
           json := {| model := model_name;
                      prompt := PROMPT_HEAD ++ text ++ PROMPT_TAIL;
                      stream := false |};
           timeout := 180 |} ]
    /\ sent (snd (translate ollama [] model_name w)) =
       sent w ++
         [ {| url := OLLAMA_API_URL;
              json := {| model := model_name;
                         prompt := PROMPT_HEAD ++ PROMPT_TAIL;
                         stream := false |};
              timeout := 180 |} ]
    /\ (exists head, PROMPT_HEAD = head ++ lit "--- English Abstract ---" ++ LF)
    /\ PROMPT_TAIL = LF ++ lit "--- End of Abstract ---" ++ LF.
Proof.
  intros ollama text model_name w. rewrite !translate_run. cbn [snd sent].
  split; [reflexivity | split; [reflexivity | split]].
  - exists (firstn 606 PROMPT_HEAD). vm_compute. reflexivity.
  - vm_compute. reflexivity.
Qed.

(** C7. Against an endpoint whose answer is a fixed function of the request,
    [translate] is deterministic: two calls with the same text and model
    name return the same string, from whatever state of the world each one
    starts, and so also when the second call follows the first. *)
Theorem translate_deterministic :
  forall (stub : request -> http_outcome) (text model_name : str),
    (forall w1 w2 : world,
        fst (translate_text_with_ollama (fun _ => stub) text model_name w1)
        = fst (translate_text_with_ollama (fun _ => stub) text model_name w2))
    /\ (forall w : world,
          let first := translate_text_with_ollama (fun _ => stub) text
                         model_name w in
          fst (translate_text_with_ollama (fun _ => stub) text model_name
                 (snd first))
          = fst first).
Proof.
  intros stub text model_name.
  assert (G : forall w1 w2 : world,
             fst (translate_text_with_ollama (fun _ => stub) text model_name w1)
             = fst (translate_text_with_ollama (fun _ => stub) text model_name
                      w2)).
  { intros w1 w2. rewrite !translate_text_run. reflexivity. }
  split; [exact G | intros w first; apply G].
Qed.




(** C9, where the claim fails. The first phrase is no substring of the
    second: after [translation] the first has a colon and the second a
    space. A text that starts with the second phrase loses it in full, and
    nothing of [ of the English text into Japanese:] stays behind. *)
Lemma second_phrase_leaves_no_residue :
  contains SECOND_PHRASE FIRST_PHRASE = false
  /\ fst (translate (answering long_greeting_body) SOME_ABSTRACT LLAMA3
            initial_world)
     = Returned (Success (lit "こんにちは"))
  /\ contains (lit "こんにちは") RESIDUE = false.
Proof. repeat split; vm_compute; reflexivity. Qed.

(** C9, amended. The cleanup pass applies its two phrases in list order as
    global substring replacements. The first phrase is no substring of the
    second, so an occurrence of the second phrase in the trimmed text of the
    model is removed in full: of a trimmed text [a ++ SECOND_PHRASE ++ b]
    the Success text is the cleanup of [a] followed by the cleanup of
    [b]. *)
Theorem second_phrase_removed_in_full :
  forall (ollama : endpoint) (text model_name : str) (w : world)
         (generated a b : str),
    generates (ollama (length (sent w)) (translation_request text model_name))
      generated ->
    strip generated = a ++ SECOND_PHRASE ++ b ->
    contains SECOND_PHRASE FIRST_PHRASE = false
    /\ remove_unwanted (strip generated)
       = replace (replace (strip generated) FIRST_PHRASE []) SECOND_PHRASE []
    /\ fst (translate ollama text model_name w)
       = Returned (Success (remove_unwanted a ++ remove_unwanted b)).
Proof.
  intros ollama text model_name w generated a b Hgen Hsplit.
  split; [vm_compute; reflexivity | split; [reflexivity |]].
  rewrite translate_run, (verdict_generates _ _ Hgen). cbn [fst].
  now rewrite Hsplit, remove_unwanted_second_phrase.
Qed.

Lemma second_phrase_removed_in_full_witness :
  fst (translate (answering long_greeting_body) SOME_ABSTRACT LLAMA3
         initial_world)
  = Returned (Success (lit "こんにちは")).
Proof.
  destruct (second_phrase_removed_in_full (answering long_greeting_body)
              SOME_ABSTRACT LLAMA3 initial_world
              (SECOND_PHRASE ++ lit "こんにちは") [] (lit "こんにちは"))
    as (_ & _ & Hrun).
  - exists {| status_code := 200; content := long_greeting_body |},
      (Utf8.decoded Utf8.Ignore long_greeting_body),
      [(lit "response", JString (SECOND_PHRASE ++ lit "こんにちは"))].
    repeat split; vm_compute; reflexivity.
  - vm_compute. reflexivity.
  - rewrite Hrun. vm_compute. reflexivity.
Defined.

(** C10. A mechanically successful exchange whose text, once trimmed and
    cleaned, begins with [翻訳エラー] ends in a Success on which
    [is_translation_error] is true: read by its prefix alone, a genuine
    translation counts as a failure. *)
Theorem success_may_carry_marker :
  forall (ollama : endpoint) (text model_name : str) (w : world)
         (generated : str),
    generates (ollama (length (sent w)) (translation_request text model_name))
      generated ->
    startswith (remove_unwanted (strip generated)) ERROR_MARKER = true ->
    fst (translate ollama text model_name w)
      = Returned (Success (remove_unwanted (strip generated)))
    /\ fst (translate_text_with_ollama ollama text model_name w)
       = Returned (remove_unwanted (strip generated))
    /\ is_translation_error (remove_unwanted (strip generated)) = true.
Proof.
  intros ollama text model_name w generated Hgen Hmarker.
  rewrite translate_run, translate_text_run.
  rewrite (verdict_generates _ _ Hgen). cbn [fst text_of]. auto.
Qed.

Lemma success_may_carry_marker_witness :
  fst (translate (answering marker_body) SOME_ABSTRACT LLAMA3 initial_world)
    = Returned (Success (lit "翻訳エラーという語は翻訳の失敗を意味します。"))
  /\ is_translation_error (lit "翻訳エラーという語は翻訳の失敗を意味します。") = true.
Proof.
  destruct (success_may_carry_marker (answering marker_body) SOME_ABSTRACT
              LLAMA3 initial_world
              (lit "翻訳エラーという語は翻訳の失敗を意味します。"))
    as (Hrun & _ & Hmarker).
  - exists {| status_code := 200; content := marker_body |},
      (Utf8.decoded Utf8.Ignore marker_body),
      [(lit "response",
        JString (lit "翻訳エラーという語は翻訳の失敗を意味します。"))].
    repeat split; vm_compute; reflexivity.
  - vm_compute. reflexivity.
  - split; [rewrite Hrun | rewrite <- Hmarker]; vm_compute; reflexivity.
Defined.

(* ================================================================== *)
(** * More facts about the string builtins *)
(* ================================================================== *)

Module PyMore.

Lemma startswith_iff (s p : str) :
  startswith s p = true <-> exists rest, s = p ++ rest.
Proof.
  split.
  - revert s. induction p as [| x p IH]; intros s H; [now exists s |].
    destruct s as [| c s]; [discriminate |]. simpl in H.
    apply andb_true_iff in H as [Hc H]. apply N.eqb_eq in Hc. subst c.
    destruct (IH s H) as [rest ->]. now exists rest.
  - intros [rest ->]. apply PyFacts.startswith_app.
Qed.

(** A one-character [replace] works on each character by itself. *)
Lemma replace_char (s : str) (x y : N) :
  replace s [x] [y] = map (fun c => if c =? x then y else c) s.
Proof.
  unfold replace. induction s as [| c s IH]; [reflexivity |].
  cbn [replace_from startswith map length Nat.pred].
  rewrite andb_true_r. destruct (c =? x); cbn [app]; now rewrite IH.
Qed.

Lemma replace_char_length (s : str) (x y : N) :
  length (replace s [x] [y]) = length s.
Proof. rewrite replace_char. apply length_map. Qed.

Lemma replace_char_lacks (s : str) (x y : N) :
  x <> y -> lacks x (replace s [x] [y]) = true.
Proof.
  intros Hxy. rewrite replace_char. unfold lacks.
  induction s as [| c s IH]; [reflexivity |]. cbn [map forallb].
  rewrite IH, andb_true_r.
  destruct (c =? x) eqn:E; [| now rewrite E].
  apply negb_true_iff, N.eqb_neq. congruence.
Qed.

(** A text in which [old] does not occur is left as it is. *)
Lemma replace_absent (s old new : str) :
  contains s old = false -> replace s old new = s.
Proof.
  intros H. destruct old as [| x old]; [now destruct s |].
  unfold replace. induction s as [| c s IH]; [reflexivity |].
  cbn [contains] in H. apply orb_false_iff in H as [Hhead Htail].
  cbn [replace_from]. rewrite Hhead. now rewrite IH.
Qed.

Lemma subseq_refl {A : Type} (l : list A) : subseq l l.
Proof. induction l; now constructor. Qed.

Lemma subseq_trans {A : Type} (l1 l2 l3 : list A) :
  subseq l1 l2 -> subseq l2 l3 -> subseq l1 l3.
Proof.
  intros H12 H23. revert l1 H12.
  induction H23 as [| x l2 l3 _ IH | x l2 l3 _ IH]; intros l1 H12.
  - exact H12.
  - inversion H12; subst; constructor; auto.
  - constructor. auto.
Qed.

Lemma subseq_app_r {A : Type} (l q : list A) : subseq l (l ++ q).
Proof.
  induction l as [| x l IH]; simpl; [apply Utf8Facts.subseq_nil | now constructor].
Qed.

(** Removing a phrase only drops characters. *)
Lemma replace_from_subseq (old : str) (k : nat) (s : str) :
  subseq (replace_from old [] k s) s.
Proof.
  revert k. induction s as [| c s IH]; intros k; [constructor |].
  cbn [replace_from]. destruct k as [| k]; [| constructor; apply IH].
  destruct (startswith (c :: s) old); cbn [app]; constructor; apply IH.
Qed.

Lemma replace_subseq (s old : str) : subseq (replace s old []) s.
Proof.
  destruct old as [| x old]; [| apply replace_from_subseq].
  unfold replace. cbn [app].
  induction s as [| c s IH]; simpl; now constructor.
Qed.

(** [lstrip] drops a run of whitespace at the head, and nothing else. *)
Lemma lstrip_spec (s : str) :
  exists pre, s = pre ++ lstrip s /\ forallb isspace pre = true.
Proof.
  induction s as [| c s (pre & E & Hpre)]; [now exists [] |].
  cbn [lstrip]. destruct (isspace c) eqn:Hc.
  - exists (c :: pre). cbn [app forallb]. rewrite Hc, Hpre. now rewrite <- E.
  - now exists [].
Qed.

(** [strip] drops a run of whitespace at each end, and nothing else. *)
Lemma strip_spec (s : str) :
  exists pre post,
    s = pre ++ strip s ++ post
    /\ forallb isspace pre = true /\ forallb isspace post = true.
Proof.
  destruct (lstrip_spec s) as (pre & E1 & Hpre).
  destruct (lstrip_spec (rev (lstrip s))) as (q & E2 & Hq).
  exists pre, (rev q). unfold strip, rstrip. repeat split; auto.
  - rewrite E1 at 1. f_equal.
    rewrite <- (rev_involutive (lstrip s)) at 1. rewrite E2 at 1.
    now rewrite rev_app_distr.
  - rewrite forallb_forall in *. intros x Hx. apply Hq. now apply in_rev.
Qed.

Lemma strip_subseq (s : str) : subseq (strip s) s.
Proof.
  destruct (strip_spec s) as (pre & post & E & _).
  rewrite E at 2. apply Utf8Facts.subseq_app_skip, subseq_app_r.
Qed.

Lemma lstrip_blank (s : str) : forallb isspace s = true -> lstrip s = [].
Proof.
  induction s as [| c s IH]; [reflexivity |]. cbn [forallb lstrip].
  intros H. apply andb_true_iff in H as [-> H]. auto.
Qed.

Lemma strip_blank (s : str) : forallb isspace s = true -> strip s = [].
Proof. intros H. unfold strip. now rewrite (lstrip_blank s H). Qed.

(** What [strip] returns neither starts nor ends with whitespace. *)
Lemma lstrip_head (s : str) :
  match lstrip s with
  | [] => True
  | c :: _ => isspace c = false
  end.
Proof.
  induction s as [| c s IH]; [exact I |]. cbn [lstrip].
  destruct (isspace c) eqn:E; [exact IH | exact E].
Qed.

Lemma lstrip_fixed (s : str) :
  match s with
  | [] => True
  | c :: _ => isspace c = false
  end ->
  lstrip s = s.
Proof. destruct s as [| c s]; [reflexivity |]. cbn [lstrip]. now intros ->. Qed.

Lemma contains_app (a x b : str) : contains (a ++ x ++ b) x = true.
Proof.
  induction a as [| c a IH].
  - cbn [app]. destruct (x ++ b) eqn:E; cbn [contains];
      rewrite <- E, PyFacts.startswith_app; reflexivity.
  - cbn [app contains]. rewrite IH. apply orb_true_r.
Qed.

End PyMore.

(* ================================================================== *)
(** * Further properties of the script *)
(* ================================================================== *)

Lemma sanitize_char_safe (c : N) : forbidden (sanitize_char c) = false.
Proof.
  unfold sanitize_char. fold (forbidden c).
  destruct (forbidden c) eqn:E; [reflexivity | exact E].
Qed.

Lemma sanitize_char_fixed (c : N) : forbidden c = false -> sanitize_char c = c.
Proof. intros H. unfold sanitize_char. fold (forbidden c). now rewrite H. Qed.

Lemma filename_safe_app (a b : str) :
  filename_safe (a ++ b) = (filename_safe a && filename_safe b)%bool.
Proof. apply forallb_app. Qed.

Lemma sanitize_filename_safe (filename : str) :
  filename_safe (sanitize_filename filename) = true.
Proof.
  unfold filename_safe, sanitize_filename.
  induction filename as [| c s IH]; [reflexivity |]. cbn [map forallb].
  now rewrite sanitize_char_safe, IH.
Qed.

Lemma sanitize_filename_fixed (filename : str) :
  filename_safe filename = true -> sanitize_filename filename = filename.
Proof.
  unfold filename_safe, sanitize_filename.
  induction filename as [| c s IH]; [reflexivity |]. cbn [map forallb].
  intros H. apply andb_true_iff in H as [Hc Hs].
  apply negb_true_iff in Hc. now rewrite (sanitize_char_fixed c Hc), IH.
Qed.

(** X1. [sanitize_filename] returns a name of the same length with none of
    the characters it replaces in it (backslash, slash, colon, asterisk,
    question mark, double quote, angle brackets, bar), and applying it twice
    changes nothing more. *)
Theorem sanitize_filename_is_safe :
  forall filename : str,
    filename_safe (sanitize_filename filename) = true
    /\ length (sanitize_filename filename) = length filename
    /\ sanitize_filename (sanitize_filename filename)
       = sanitize_filename filename.
Proof.
  intros filename. split; [apply sanitize_filename_safe | split].
  - apply length_map.
  - apply sanitize_filename_fixed, sanitize_filename_safe.
Qed.

(** X2. [sanitize_filename] returns a name that has none of the replaced
    characters as it is, and otherwise puts an underscore at the first
    replaced character and keeps what is before it. *)
Theorem sanitize_filename_keeps_safe_prefix :
  forall (a b : str) (c : N),
    filename_safe a = true ->
    (forbidden c = true ->
     sanitize_filename (a ++ c :: b) = a ++ chr "_" :: sanitize_filename b)
    /\ sanitize_filename a = a.
Proof.
  intros a b c Ha. split; [| now apply sanitize_filename_fixed].
  intros Hc. unfold sanitize_filename. rewrite map_app. cbn [map].
  fold (sanitize_filename a). rewrite (sanitize_filename_fixed a Ha).
  unfold sanitize_char at 1. fold (forbidden c). now rewrite Hc.
Qed.

Lemma sanitize_filename_keeps_safe_prefix_witness :
  sanitize_filename (lit "gnn: a/b") = lit "gnn_ a_b"
  /\ sanitize_filename (lit "gnn") = lit "gnn".
Proof.
  destruct (sanitize_filename_keeps_safe_prefix (lit "gnn") (lit " a/b")
              (chr ":") eq_refl) as [H1 H2].
  split; [| exact H2].
  change (lit "gnn: a/b") with (lit "gnn" ++ chr ":" :: lit " a/b").
  rewrite (H1 eq_refl). reflexivity.
Defined.

(** X3. Whatever [str.lower] does, the name of the output file is the
    query with its spaces turned into underscores, lower-cased, sanitized,
    and followed by [_results.txt]; it has none of the characters that
    [sanitize_filename] replaces. *)
Theorem output_filename_is_safe :
  forall (lower : str -> str) (query : str),
    output_filename lower query
    = sanitize_filename
        (lower (map (fun c => if c =? chr " " then chr "_" else c) query))
      ++ RESULTS_SUFFIX
    /\ filename_safe (output_filename lower query) = true.
Proof.
  intros lower query. unfold output_filename. split.
  - now rewrite PyMore.replace_char.
  - rewrite filename_safe_app, sanitize_filename_safe. reflexivity.
Qed.

(** X4. Two queries that differ in a space against an underscore are
    written to the same output file: the second run replaces the report of
    the first. *)
Theorem space_and_underscore_share_a_file :
  forall (lower : str -> str) (a b : str),
    output_filename lower (a ++ [chr " "] ++ b)
    = output_filename lower (a ++ [chr "_"] ++ b).
Proof.
  intros lower a b. unfold output_filename.
  rewrite !PyMore.replace_char, !map_app. reflexivity.
Qed.

(** X5. The abstract sent for a paper has no line feed in it and is as long
    as the summary: every line feed has become one space. *)
Theorem abstract_has_no_line_feed :
  forall result : paper,
    lacks 10 (abstract_of result) = true
    /\ length (abstract_of result) = length (summary result)
    /\ abstract_of result
       = map (fun c => if c =? 10 then chr " " else c) (summary result).
Proof.
  intros result. unfold abstract_of, LF. split; [| split].
  - apply PyMore.replace_char_lacks. discriminate.
  - apply PyMore.replace_char_length.
  - apply PyMore.replace_char.
Qed.

Lemma join_around (sep : str) (before : list str) (x : str) (after : list str) :
  exists a b, join sep (before ++ x :: after) = a ++ x ++ b.
Proof.
  induction before as [| y before (a & b & IH)].
  - exists []. destruct after as [| z after].
    + exists []. cbn. now rewrite app_nil_r.
    + now exists (sep ++ join sep (z :: after)).
  - exists (y ++ sep ++ a), b.
    cbn [app join]. destruct (before ++ x :: after) eqn:E.
    + now destruct before.
    + rewrite IH, <- !app_assoc. reflexivity.
Qed.

(** X6. Every keyword of the command line is in the combined query, between
    parentheses; a single keyword gives its parenthesised form alone. *)
Theorem combined_query_holds_every_keyword :
  forall (queries : list str) (q : str),
    In q queries ->
    contains (combined_query queries) (parenthesised q) = true
    /\ combined_query [q] = parenthesised q.
Proof.
  intros queries q Hq. split; [| reflexivity].
  apply in_split in Hq as (before & after & ->).
  unfold combined_query. rewrite map_app. cbn [map].
  destruct (join_around (lit " AND ") (map parenthesised before)
              (parenthesised q) (map parenthesised after)) as (a & b & ->).
  apply PyMore.contains_app.
Qed.

Lemma combined_query_holds_every_keyword_witness :
  contains (lit "(transformer) AND (quantum)") (lit "(quantum)") = true
  /\ combined_query [lit "quantum"] = lit "(quantum)".
Proof.
  exact (combined_query_holds_every_keyword
           [lit "transformer"; lit "quantum"] (lit "quantum")
           (or_intror (or_introl eq_refl))).
Defined.

(** X7. [is_translation_error] is true of exactly the texts that are
    [翻訳エラー] followed by anything; it is false of the empty text. *)
Theorem is_translation_error_iff_marker_first :
  forall translated_text : str,
    (is_translation_error translated_text = true
     <-> exists rest, translated_text = ERROR_MARKER ++ rest)
    /\ is_translation_error [] = false.
Proof.
  intros translated_text. split; [apply PyMore.startswith_iff | reflexivity].
Qed.

(** X8. When the service answers, with a status that passes, a body that
    [json.loads] reads as a value that is no object with a text in
    [response] (a list, a number, a string, [null], an object whose
    [response] is no string), [AttributeError] leaves [translate]: neither
    [except] clause catches it. *)
Theorem wrong_shape_raises_attribute_error :
  forall (ollama : endpoint) (text model_name : str) (w : world)
         (r : response) (s : str) (v : value),
    ollama (length (sent w)) (translation_request text model_name) = Answers r ->
    status_ok (status_code r) = true ->
    Utf8.decode Utf8.Ignore (content r) = Returned s ->
    Json.loads s = Returned v ->
    (forall members generated,
        v = JObject members ->
        Json.get members (lit "response") (JString NO_RESULT)
          <> JString generated) ->
    fst (translate ollama text model_name w) = Raised AttributeError
    /\ fst (translate_text_with_ollama ollama text model_name w)
       = Raised AttributeError.
Proof.
  intros ollama text model_name w r s v Hanswer Hstatus Hdecode Hloads Hshape.
  rewrite translate_run, translate_text_run, Hanswer. cbn [fst].
  rewrite verdict_answers, Hstatus. unfold Utf8.decoded.
  rewrite Hdecode, Hloads.
  destruct v as [| b | lexeme | t | items | members]; try (split; reflexivity).
  specialize (Hshape members).
  destruct (Json.get members (lit "response") (JString NO_RESULT))
    as [| b | lexeme | t | items | members'];
    try (split; reflexivity).
  now destruct (Hshape t eq_refl).
Qed.

Lemma wrong_shape_raises_attribute_error_witness :
  fst (translate (answering number_field_body) SOME_ABSTRACT LLAMA3
         initial_world) = Raised AttributeError.
Proof.
  refine (proj1 (wrong_shape_raises_attribute_error
                   (answering number_field_body) SOME_ABSTRACT LLAMA3
                   initial_world
                   {| status_code := 200; content := number_field_body |}
                   (Utf8.decoded Utf8.Ignore number_field_body)
                   (JObject [(lit "response", JNumber (lit "42"))])
                   eq_refl eq_refl _ _ _)).
  - vm_compute. reflexivity.
  - vm_compute. reflexivity.
  - intros members generated [= <-]. vm_compute. discriminate.
Defined.

(** X9. The status of the answer decides before the body does: with a 4xx
    or 5xx status the result is the Failure of the connection message
    whatever the body holds, and with any other status the result is the one
    the same body gives with status 200. *)
Theorem status_decides_before_body :
  forall (ollama : endpoint) (text model_name : str) (w : world)
         (status : N) (bs : Utf8.bytes),
    ollama (length (sent w)) (translation_request text model_name)
      = Answers {| status_code := status; content := bs |} ->
    fst (translate ollama text model_name w) =
    if (400 <=? status) && (status <? 600)
    then Returned (Failure CONNECTION_MESSAGE)
    else fst (translate (answering bs) text model_name w).
Proof.
  intros ollama text model_name w status bs Hanswer.
  rewrite !translate_run, Hanswer. unfold answering. cbn [fst].
  rewrite !verdict_answers. cbn [status_code content]. unfold status_ok.
  destruct ((400 <=? status) && (status <? 600))%bool; reflexivity.
Qed.

Lemma status_decides_before_body_witness :
  fst (translate (fun _ _ => Answers {| status_code := 503;
                                        content := greeting_body |})
         SOME_ABSTRACT LLAMA3 initial_world)
  = Returned (Failure CONNECTION_MESSAGE).
Proof.
  exact (status_decides_before_body
           (fun _ _ => Answers {| status_code := 503;
                                  content := greeting_body |})
           SOME_ABSTRACT LLAMA3 initial_world 503 greeting_body eq_refl).
Defined.

Lemma strip_prefix_head (p s rest : str) :
  strip_prefix p s = Some rest ->
  match p, s with
  | x :: _, c :: _ => c = x
  | _ :: _, [] => False
  | [], _ => True
  end.
Proof.
  destruct p as [| x p]; [auto |]. destruct s as [| c s]; [discriminate |].
  simpl. destruct (c =? x) eqn:E; [| discriminate].
  intros _. now apply N.eqb_eq.
Qed.

(** A text that is empty after its leading whitespace, or goes on with a
    character no JSON value starts with, is rejected at that character. *)
Lemma loads_rejects_at_start (s : str) :
  match skip_ws s with
  | [] => True
  | c :: _ => starts_value c = false
  end ->
  Json.loads s = Raised JSONDecodeError.
Proof.
  intros H. unfold Json.loads.
  destruct (startswith s [0xFEFF]); [reflexivity |].
  replace (2 * length s + 2)%nat with (S (2 * length s + 1)) by lia.
  rewrite JsonFacts.scan_once_S.
  destruct (skip_ws s) as [| c r]; [reflexivity |].
  unfold starts_value in H. cbn [existsb] in H.
  apply orb_false_iff in H as [H Hdigit].
  repeat (apply orb_false_iff in H as [? H]). clear H.
  assert (Hzero : (c =? chr "0") = false).
  { destruct (c =? chr "0") eqn:E; [| reflexivity].
    apply N.eqb_eq in E. subst c. discriminate Hdigit. }
  assert (G : scan_constant (c :: r) = Bad).
  { unfold scan_constant, match_number, match_integer.
    repeat match goal with
      | E : (c =? _) = false |- _ => rewrite E
      end.
    rewrite Hdigit.
    repeat match goal with
      | |- context [strip_prefix ?p (c :: r)] =>
          let E := fresh "E" in
          destruct (strip_prefix p (c :: r)) eqn:E;
          [ exfalso; apply strip_prefix_head in E; cbv in E; subst c;
            repeat match goal with
              | F : (_ =? _) = false |- _ => try discriminate F; clear F
              end |]
      end.
    reflexivity. }
  repeat match goal with
    | E : (c =? _) = false |- _ => rewrite E
    end.
  now rewrite G.
Qed.

(** X10. A body whose text is empty after its leading whitespace, or goes
    on with a character that no JSON value starts with (the empty body, an
    HTML page, a plain message), gives the Failure of the parse message,
    which is not the message of a failed connection. *)
Theorem malformed_body_is_parse_failure :
  forall (ollama : endpoint) (text model_name : str) (w : world)
         (r : response),
    ollama (length (sent w)) (translation_request text model_name) = Answers r ->
    status_ok (status_code r) = true ->
    match skip_ws (Utf8.decoded Utf8.Ignore (content r)) with
    | [] => True
    | c :: _ => starts_value c = false
    end ->
    fst (translate ollama text model_name w) = Returned (Failure PARSE_MESSAGE)
    /\ eqb PARSE_MESSAGE CONNECTION_MESSAGE = false.
Proof.
  intros ollama text model_name w r Hanswer Hstatus Hstart.
  rewrite translate_run, Hanswer. cbn [fst].
  rewrite verdict_answers, Hstatus, (loads_rejects_at_start _ Hstart).
  split; [reflexivity | vm_compute; reflexivity].
Qed.

Lemma malformed_body_is_parse_failure_witness :
  fst (translate (answering []) SOME_ABSTRACT LLAMA3 initial_world)
    = Returned (Failure PARSE_MESSAGE)
  /\ fst (translate (answering html_body) SOME_ABSTRACT LLAMA3 initial_world)
     = Returned (Failure PARSE_MESSAGE).
Proof.
  split.
  - exact (proj1 (malformed_body_is_parse_failure (answering []) SOME_ABSTRACT
                    LLAMA3 initial_world
                    {| status_code := 200; content := [] |}
                    eq_refl eq_refl I)).
  - exact (proj1 (malformed_body_is_parse_failure (answering html_body)
                    SOME_ABSTRACT LLAMA3 initial_world
                    {| status_code := 200; content := html_body |}
                    eq_refl eq_refl eq_refl)).
Defined.

Lemma decoded_bom (rest : Utf8.bytes) :
  Utf8.decoded Utf8.Ignore (xef :: xbb :: xbf :: rest)
  = 0xFEFF :: Utf8.decoded Utf8.Ignore rest.
Proof.
  unfold Utf8.decoded. rewrite Utf8Facts.decode_cons.
  change (Utf8.next xef (xbb :: xbf :: rest)) with (Utf8.Char 0xFEFF rest).
  cbv iota. now destruct (Utf8Facts.decode_ignore_returns rest) as [s ->].
Qed.

(** X11. A body that starts with the UTF-8 byte-order mark is never read as
    JSON: the mark is decoded to U+FEFF, [json.loads] rejects the text, and
    the result is the Failure of the parse message whatever follows the
    mark. *)
Theorem byte_order_mark_is_parse_failure :
  forall (ollama : endpoint) (text model_name : str) (w : world)
         (status : N) (rest : Utf8.bytes),
    ollama (length (sent w)) (translation_request text model_name)
      = Answers {| status_code := status;
                   content := xef :: xbb :: xbf :: rest |} ->
    status_ok status = true ->
    fst (translate ollama text model_name w) = Returned (Failure PARSE_MESSAGE).
Proof.
  intros ollama text model_name w status rest Hanswer Hstatus.
  rewrite translate_run, Hanswer. cbn [fst].
  rewrite verdict_answers. cbn [status_code content].
  rewrite Hstatus, decoded_bom. reflexivity.
Qed.

Lemma byte_order_mark_is_parse_failure_witness :
  fst (translate (answering bom_body) SOME_ABSTRACT LLAMA3 initial_world)
  = Returned (Failure PARSE_MESSAGE).
Proof.
  exact (byte_order_mark_is_parse_failure (answering bom_body) SOME_ABSTRACT
           LLAMA3 initial_world 200 (body "{'response': 'こんにちは'}")
           eq_refl eq_refl).
Defined.

Lemma strict_then_ignore (bs : Utf8.bytes) :
  forall s, Utf8.decode Utf8.Strict bs = Returned s ->
            Utf8.decode Utf8.Ignore bs = Returned s.
Proof.
  induction bs as [| b1 r1 IH] using Utf8Facts.decode_ind; [auto |].
  intros s. rewrite !Utf8Facts.decode_cons.
  destruct (Utf8.next b1 r1) as [ch rest | rest | rest |] eqn:E;
    try discriminate.
  destruct (Utf8.decode Utf8.Strict rest) as [t | e] eqn:D; [| discriminate].
  intros [= <-]. now rewrite (IH rest eq_refl t D).
Qed.

Lemma strict_then_encode (bs : Utf8.bytes) :
  forall s, Utf8.decode Utf8.Strict bs = Returned s -> Utf8.encode s = bs.
Proof.
  induction bs as [| b1 r1 IH] using Utf8Facts.decode_ind;
    [now intros s [= <-] |].
  intros s. rewrite Utf8Facts.decode_cons.
  destruct (Utf8.next b1 r1) as [ch rest | rest | rest |] eqn:E;
    try discriminate.
  destruct (Utf8.decode Utf8.Strict rest) as [t | e] eqn:D; [| discriminate].
  intros [= <-]. apply Utf8Facts.next_char_encode in E as [_ ->].
  cbn [Utf8.encode flat_map]. fold (Utf8.encode t).
  now rewrite (IH rest eq_refl t D).
Qed.

(** X12. On a body that is well-formed UTF-8 the lossy decoding of the
    script loses nothing: it gives the text that strict decoding gives, and
    the bytes of that text are the body. *)
Theorem well_formed_body_is_decoded_in_full :
  forall (bs : Utf8.bytes) (s : str),
    Utf8.decode Utf8.Strict bs = Returned s ->
    Utf8.decode Utf8.Ignore bs = Returned s
    /\ Utf8.encode s = bs
    /\ encodable s = true.
Proof.
  intros bs s H. pose proof (strict_then_encode bs s H) as Hbytes.
  apply strict_then_ignore in H. split; [exact H | split; [exact Hbytes |]].
  pose proof (Utf8Facts.decoded_scalar bs) as Hs.
  unfold Utf8.decoded in Hs. now rewrite H in Hs.
Qed.

Lemma well_formed_body_is_decoded_in_full_witness :
  Utf8.decode Utf8.Ignore (body "こんにちは") = Returned (lit "こんにちは").
Proof.
  exact (proj1 (well_formed_body_is_decoded_in_full (body "こんにちは")
                  (lit "こんにちは") eq_refl)).
Defined.

Lemma remove_unwanted_nil : remove_unwanted [] = [].
Proof. reflexivity. Qed.

(** X13. A text of whitespace only, the empty text included, is a Success
    with the empty text, on which [is_translation_error] is false: an empty
    translation is not reported as a failure. *)
Theorem blank_text_is_empty_success :
  forall (ollama : endpoint) (text model_name : str) (w : world)
         (generated : str),
    generates (ollama (length (sent w)) (translation_request text model_name))
      generated ->
    forallb isspace generated = true ->
    fst (translate ollama text model_name w) = Returned (Success [])
    /\ is_translation_error [] = false.
Proof.
  intros ollama text model_name w generated Hgen Hblank.
  rewrite translate_run, (verdict_generates _ _ Hgen). cbn [fst].
  rewrite (PyMore.strip_blank generated Hblank). split; reflexivity.
Qed.

Lemma blank_text_is_empty_success_witness :
  fst (translate (answering blank_body) SOME_ABSTRACT LLAMA3 initial_world)
  = Returned (Success []).
Proof.
  refine (proj1 (blank_text_is_empty_success (answering blank_body)
                   SOME_ABSTRACT LLAMA3 initial_world
                   [32; 10; 9; 0x3000; 32] _ eq_refl)).
  exists {| status_code := 200; content := blank_body |},
    (Utf8.decoded Utf8.Ignore blank_body),
    [(lit "response", JString [32; 10; 9; 0x3000; 32])].
  repeat split; vm_compute; reflexivity.
Defined.

Lemma remove_unwanted_absent (t : str) :
  contains t FIRST_PHRASE = false ->
  contains t SECOND_PHRASE = false ->
  remove_unwanted t = t.
Proof.
  intros H1 H2. unfold remove_unwanted, unwanted_phrases. cbn [fold_left].
  now rewrite (PyMore.replace_absent t _ [] H1), (PyMore.replace_absent t _ [] H2).
Qed.

(** X14. A text in which neither boilerplate phrase occurs comes back as
    the model wrote it, less the whitespace at its two ends. *)
Theorem clean_text_is_only_trimmed :
  forall (ollama : endpoint) (text model_name : str) (w : world)
         (generated : str),
    generates (ollama (length (sent w)) (translation_request text model_name))
      generated ->
    contains (strip generated) FIRST_PHRASE = false ->
    contains (strip generated) SECOND_PHRASE = false ->
    fst (translate ollama text model_name w)
    = Returned (Success (strip generated)).
Proof.
  intros ollama text model_name w generated Hgen H1 H2.
  rewrite translate_run, (verdict_generates _ _ Hgen). cbn [fst].
  now rewrite (remove_unwanted_absent _ H1 H2).
Qed.

Lemma clean_text_is_only_trimmed_witness :
  fst (translate (answering plain_body) SOME_ABSTRACT LLAMA3 initial_world)
  = Returned (Success PLAIN_TRANSLATION).
Proof.
  refine (eq_trans
            (clean_text_is_only_trimmed (answering plain_body) SOME_ABSTRACT
               LLAMA3 initial_world
               (lit "  グラフニューラルネットワークは分子生成を改善する。 ")
               _ _ _) _).
  - exists {| status_code := 200; content := plain_body |},
      (Utf8.decoded Utf8.Ignore plain_body),
      [(lit "response",
        JString (lit "  グラフニューラルネットワークは分子生成を改善する。 "))].
    repeat split; vm_compute; reflexivity.
  - vm_compute. reflexivity.
  - vm_compute. reflexivity.
  - vm_compute. reflexivity.
Defined.

Lemma remove_unwanted_subseq (t : str) : subseq (remove_unwanted t) t.
Proof.
  unfold remove_unwanted, unwanted_phrases. cbn [fold_left].
  eapply PyMore.subseq_trans; apply PyMore.replace_subseq.
Qed.

(** X15. The text of a Success is made of characters of the text the model
    wrote, in their order: trimming and cleanup drop characters and neither
    change nor add one. *)
Theorem success_text_is_subsequence :
  forall (ollama : endpoint) (text model_name : str) (w : world)
         (generated : str),
    generates (ollama (length (sent w)) (translation_request text model_name))
      generated ->
    exists cleaned,
      fst (translate ollama text model_name w) = Returned (Success cleaned)
      /\ subseq cleaned generated
      /\ (length cleaned <= length generated)%nat.
Proof.
  intros ollama text model_name w generated Hgen.
  exists (remove_unwanted (strip generated)).
  rewrite translate_run, (verdict_generates _ _ Hgen). cbn [fst].
  assert (H : subseq (remove_unwanted (strip generated)) generated).
  { eapply PyMore.subseq_trans;
      [apply remove_unwanted_subseq | apply PyMore.strip_subseq]. }
  repeat split; [exact H |].
  clear Hgen. induction H; simpl; lia.
Qed.

Lemma success_text_is_subsequence_witness :
  exists cleaned,
    fst (translate (answering greeting_body) SOME_ABSTRACT LLAMA3 initial_world)
      = Returned (Success cleaned)
    /\ subseq cleaned (lit "Here is the translation: こんにちは")
    /\ (length cleaned <= 30)%nat.
Proof.
  refine (success_text_is_subsequence (answering greeting_body) SOME_ABSTRACT
            LLAMA3 initial_world (lit "Here is the translation: こんにちは") _).
  exists {| status_code := 200; content := greeting_body |},
    (Utf8.decoded Utf8.Ignore greeting_body),
    [(lit "response", JString (lit "Here is the translation: こんにちは"))].
  repeat split; vm_compute; reflexivity.
Defined.

(** X16. [translate] touches nothing but the network: whatever the outcome,
    a raised exception included, the files and the pauses of the world are
    as they were, and one request more has been sent. *)
Theorem translate_touches_only_the_network :
  forall (ollama : endpoint) (text model_name : str) (w : world),
    files (snd (translate ollama text model_name w)) = files w
    /\ naps (snd (translate ollama text model_name w)) = naps w
    /\ length (sent (snd (translate ollama text model_name w)))
       = S (length (sent w)).
Proof.
  intros ollama text model_name w. rewrite translate_run. cbn [snd files naps sent].
  repeat split. rewrite length_app. simpl. lia.
Qed.

Lemma get_last (before : list (str * value)) (key : str) (v : value)
  (after : list (str * value)) (default : value) :
  ~ In key (map fst after) ->
  Json.get (before ++ (key, v) :: after) key default = v.
Proof.
  intros Hafter. revert default.
  induction before as [| [k x] before IH]; intros default.
  - cbn [app Json.get]. rewrite PyFacts.eqb_refl. now apply get_absent.
  - cbn [app Json.get]. destruct (eqb k key); apply IH.
Qed.

(** X17. When the JSON object names [response] more than once, the last
    one counts: the fields before it, other [response] fields included, and
    the fields of other names after it have no part in the result. *)
Theorem last_response_field_counts :
  forall (ollama : endpoint) (text model_name : str) (w : world)
         (r : response) (s : str) (before after : list (str * value))
         (generated : str),
    ollama (length (sent w)) (translation_request text model_name) = Answers r ->
    status_ok (status_code r) = true ->
    Utf8.decode Utf8.Ignore (content r) = Returned s ->
    Json.loads s
      = Returned (JObject (before ++ (lit "response", JString generated)
                                     :: after)) ->
    ~ In (lit "response") (map fst after) ->
    fst (translate ollama text model_name w)
    = Returned (Success (remove_unwanted (strip generated))).
Proof.
  intros ollama text model_name w r s before after generated Hanswer Hstatus
    Hdecode Hloads Hafter.
  rewrite translate_run, Hanswer. cbn [fst].
  apply verdict_generates.
  exists r, s, (before ++ (lit "response", JString generated) :: after).
  repeat split; auto. now apply get_last.
Qed.

Lemma last_response_field_counts_witness :
  fst (translate (answering repeated_field_body) SOME_ABSTRACT LLAMA3
         initial_world)
  = Returned (Success (lit "はい")).
Proof.
  refine (eq_trans
            (last_response_field_counts (answering repeated_field_body)
               SOME_ABSTRACT LLAMA3 initial_world
               {| status_code := 200; content := repeated_field_body |}
               (Utf8.decoded Utf8.Ignore repeated_field_body)
               [(lit "response", JString (lit "いいえ"))]
               [(lit "done", JBool true)]
               (lit "はい") eq_refl eq_refl _ _ _) _).
  - vm_compute. reflexivity.
  - vm_compute. reflexivity.
  - vm_compute. intros [H | []]. discriminate H.
  - vm_compute. reflexivity.
Defined.

Section LoopMore.

Variable ollama : endpoint.
Variable textwrap_fill : str -> N -> str.
Variable f model_name : str.

(** The loop stops at the first turn that breaks: the papers before it are
    written, its request is the last one sent, and nothing is written for it
    or for the papers after it. *)
Lemma translate_each_breaks (total : nat) :
  forall (n : nat) (done : list paper) (outcomes : list TranslationResult),
    settled ollama textwrap_fill model_name n done outcomes ->
    forall (p : paper) (rest : list paper) (e : exn) (i : nat) (w : world),
      length (sent w) = n ->
      turn_breaks ollama textwrap_fill model_name (n + length done) p e ->
      exists w',
        translate_each ollama textwrap_fill f model_name total i
          (done ++ p :: rest) w = (Raised e, w')
        /\ sent w' =
           sent w ++ map (fun p => translation_request (abstract_of p) model_name)
                         (done ++ [p])
        /\ file_get f (files w') =
           file_get f (files w) ++ blocks textwrap_fill done outcomes.
Proof.
  induction 1 as [n | n p0 ps r rs Hverdict Hwrite _ IH];
    intros p rest e i w Hn Hbreak.
  - cbn [app length] in *. rewrite Nat.add_0_r in Hbreak.
    cbn [translate_each]. unfold bind at 1. rewrite translate_text_run.
    fold (abstract_of p). rewrite Hn.
    destruct Hbreak as [Hraise | (-> & r & Hret & Hbad)].
    + rewrite Hraise. eexists. split; [reflexivity |].
      cbn [sent files map blocks]. now rewrite app_nil_r.
    + rewrite Hret. unfold bind at 1, file_write. rewrite Hbad.
      eexists. split; [reflexivity |].
      cbn [sent files map blocks]. now rewrite app_nil_r.
  - cbn [app translate_each]. unfold bind at 1. rewrite translate_text_run.
    fold (abstract_of p0). rewrite Hn, Hverdict.
    unfold bind at 1, file_write. rewrite Hwrite.
    cbn [sent files naps].
    set (w1 := {| sent := sent w ++ [translation_request (abstract_of p0) model_name];
                  files := file_set f
                             (file_get f (files w)
                              ++ output_content p0 (textwrap_fill (text_of r) 50))
                             (files w);
                  naps := naps w |}).
    assert (Hpause : exists w2,
               (if (i <? total - 1)%nat then time_sleep 1 else ret tt) w1
               = (Returned tt, w2)
               /\ sent w2 = sent w1 /\ files w2 = files w1).
    { destruct (i <? total - 1)%nat; eexists; repeat split. }
    destruct Hpause as (w2 & Hpause & Hsent & Hfiles).
    unfold bind at 1. rewrite Hpause.
    destruct (IH p rest e (S i) w2) as (w' & Hrun & Hsent' & Hfile').
    { rewrite Hsent. subst w1. cbn [sent]. rewrite length_app. simpl. lia. }
    { cbn [length] in Hbreak.
      now replace (S n + length ps)%nat with (n + S (length ps))%nat by lia. }
    exists w'. split; [exact Hrun | split].
    + rewrite Hsent', Hsent. subst w1. cbn [sent map app].
      now rewrite <- app_assoc.
    + rewrite Hfile', Hfiles. subst w1. cbn [files blocks].
      now rewrite file_get_set, <- app_assoc.
Qed.


End LoopMore.

Section OrchestratorMore.

Variable ollama : endpoint.
Variable arxiv_results : str -> N -> outcome (list paper).
Variable textwrap_fill : str -> N -> str.
Variable lower : str -> str.
Variable openable : str -> bool.

(** The function when a turn of its loop breaks: the handler takes the
    exception, and the file is left with the blocks written before it. *)
Lemma search_and_translate_papers_breaks
  (query : str) (max_results : N) (model_name : str)
  (done : list paper) (outcomes : list TranslationResult)
  (p : paper) (rest : list paper) (e : exn) (w : world) :
  arxiv_results query max_results = Returned (done ++ p :: rest) ->
  openable (output_filename lower query) = true ->
  settled ollama textwrap_fill model_name (length (sent w)) done outcomes ->
  turn_breaks ollama textwrap_fill model_name (length (sent w) + length done)
    p e ->
  exists w',
    search_and_translate_papers ollama arxiv_results textwrap_fill lower
      openable query max_results model_name w = (Returned tt, w')
    /\ sent w' =
       sent w ++ map (fun p => translation_request (abstract_of p) model_name)
                     (done ++ [p])
    /\ file_get (output_filename lower query) (files w') =
       blocks textwrap_fill done outcomes.
Proof.
  intros Hsearch Hopen Hsettled Hbreak.
  unfold search_and_translate_papers, try_except, bind at 1, lift.
  rewrite Hsearch.
  destruct (done ++ p :: rest) as [| p0 ps] eqn:E; [now destruct done |].
  rewrite <- E. unfold bind, file_open_w. rewrite Hopen.
  set (w0 := {| sent := sent w;
                files := file_set (output_filename lower query) [] (files w);
                naps := naps w |}).
  destruct (translate_each_breaks ollama textwrap_fill
              (output_filename lower query) model_name
              (length (done ++ p :: rest)) (length (sent w)) done outcomes
              Hsettled p rest e O w0 eq_refl Hbreak)
    as (w' & Hrun & Hsent & Hfile).
  exists w'. rewrite Hrun. split; [reflexivity | split; [exact Hsent |]].
  rewrite Hfile. subst w0. cbn [files]. now rewrite file_get_set.
Qed.


End OrchestratorMore.

(** X19. When the search finds nothing, or raises, the function does
    nothing at all: no request is sent, no file is opened, no pause is
    taken. *)
Theorem no_papers_no_effects :
  forall (ollama : endpoint)
         (arxiv_results : str -> N -> outcome (list paper))
         (textwrap_fill : str -> N -> str) (lower : str -> str)
         (openable : str -> bool)
         (query : str) (max_results : N) (model_name : str) (w : world),
    arxiv_results query max_results = Returned []
    \/ (exists e, arxiv_results query max_results = Raised e) ->
    search_and_translate_papers ollama arxiv_results textwrap_fill lower
      openable query max_results model_name w = (Returned tt, w).
Proof.
  intros ollama arxiv_results textwrap_fill lower openable query max_results
    model_name w [H | [e H]];
    unfold search_and_translate_papers, try_except, bind, lift;
    rewrite H; reflexivity.
Qed.

Lemma no_papers_no_effects_witness :
  search_and_translate_papers flaky finding_nothing no_wrap no_lower
    short_names_only (lit "(quantum)") 3 LLAMA3 initial_world
    = (Returned tt, initial_world)
  /\ search_and_translate_papers flaky failing_search no_wrap no_lower
       short_names_only (lit "(quantum)") 3 LLAMA3 initial_world
     = (Returned tt, initial_world).
Proof.
  split.
  - exact (no_papers_no_effects flaky finding_nothing no_wrap no_lower
             short_names_only (lit "(quantum)") 3 LLAMA3 initial_world
             (or_introl eq_refl)).
  - exact (no_papers_no_effects flaky failing_search no_wrap no_lower
             short_names_only (lit "(quantum)") 3 LLAMA3 initial_world
             (or_intror (ex_intro _ _ eq_refl))).
Defined.

(** X20. When the output file can be opened and every paper found ends in
    a result whose block can be written, the output file holds the blocks of
    all the papers in order and nothing else: what the file held before the
    run is gone. *)
Theorem report_holds_every_block :
  forall (ollama : endpoint)
         (arxiv_results : str -> N -> outcome (list paper))
         (textwrap_fill : str -> N -> str) (lower : str -> str)
         (openable : str -> bool)
         (query : str) (max_results : N) (model_name : str)
         (results : list paper) (outcomes : list TranslationResult)
         (w : world),
    arxiv_results query max_results = Returned results ->
    results <> [] ->
    openable (output_filename lower query) = true ->
    settled ollama textwrap_fill model_name (length (sent w)) results outcomes ->
    exists w',
      search_and_translate_papers ollama arxiv_results textwrap_fill lower
        openable query max_results model_name w = (Returned tt, w')
      /\ file_get (output_filename lower query) (files w') =
         blocks textwrap_fill results outcomes.
Proof.
  intros. now apply search_and_translate_papers_writes_all.
Qed.

Lemma flaky_settles :
  settled flaky no_wrap LLAMA3 0 two_papers
    [Failure CONNECTION_MESSAGE; Success (lit " こんにちは")].
Proof.
  unfold two_papers.
  apply settled_cons; [vm_compute; reflexivity | vm_compute; reflexivity |].
  apply settled_cons; [vm_compute; reflexivity | vm_compute; reflexivity |].
  apply settled_nil.
Defined.

Lemma report_holds_every_block_witness :
  exists w',
    search_and_translate_papers flaky finding no_wrap no_lower
      short_names_only (lit "(neural networks)") 3 LLAMA3
      {| sent := [];
         files := [(lit "(neural_networks)_results.txt", lit "an older report")];
         naps := [] |}
    = (Returned tt, w')
    /\ file_get (lit "(neural_networks)_results.txt") (files w') =
       blocks no_wrap two_papers
         [Failure CONNECTION_MESSAGE; Success (lit " こんにちは")].
Proof.
  refine (report_holds_every_block flaky finding no_wrap no_lower
            short_names_only (lit "(neural networks)") 3 LLAMA3 two_papers
            [Failure CONNECTION_MESSAGE; Success (lit " こんにちは")]
            {| sent := [];
               files := [(lit "(neural_networks)_results.txt",
                          lit "an older report")];
               naps := [] |}
            eq_refl _ _ flaky_settles).
  - discriminate.
  - vm_compute. reflexivity.
Defined.



(** X22. When the output file can be opened, an exception that leaves
    [translate] cuts the report short: the handler of the function takes it
    and the function returns, the file holds the blocks of the papers before
    the one whose call raised, that call is the last request sent, and the
    papers after it are neither translated nor written. *)
Theorem exception_cuts_report_short :
  forall (ollama : endpoint)
         (arxiv_results : str -> N -> outcome (list paper))
         (textwrap_fill : str -> N -> str) (lower : str -> str)
         (openable : str -> bool)
         (query : str) (max_results : N) (model_name : str)
         (done : list paper) (outcomes : list TranslationResult)
         (p : paper) (rest : list paper) (e : exn) (w : world),
    arxiv_results query max_results = Returned (done ++ p :: rest) ->
    openable (output_filename lower query) = true ->
    settled ollama textwrap_fill model_name (length (sent w)) done outcomes ->
    fst (translate ollama (abstract_of p) model_name
           {| sent := sent w ++ map (fun p => translation_request (abstract_of p)
                                                model_name) done;
              files := files w; naps := naps w |})
      = Raised e ->
    exists w',
      search_and_translate_papers ollama arxiv_results textwrap_fill lower
        openable query max_results model_name w = (Returned tt, w')
      /\ sent w' =
         sent w ++ map (fun p => translation_request (abstract_of p) model_name)
                       (done ++ [p])
      /\ file_get (output_filename lower query) (files w') =
         blocks textwrap_fill done outcomes.
Proof.
  intros ollama arxiv_results textwrap_fill lower openable query max_results
    model_name done outcomes p rest e w Hsearch Hopen Hsettled Hraise.
  apply (search_and_translate_papers_breaks ollama arxiv_results textwrap_fill
           lower openable query max_results model_name done outcomes p rest e
           w Hsearch Hopen Hsettled).
  left. rewrite translate_run in Hraise. cbn [fst sent] in Hraise.
  now rewrite length_app, length_map in Hraise.
Qed.

Lemma breaking_settles :
  settled breaking no_wrap LLAMA3 0 (firstn 1 two_papers)
    [Success PLAIN_TRANSLATION].
Proof.
  apply settled_cons; [vm_compute; reflexivity | vm_compute; reflexivity |].
  apply settled_nil.
Defined.

Lemma exception_cuts_report_short_witness :
  exists w',
    search_and_translate_papers breaking finding no_wrap no_lower
      short_names_only (lit "(neural networks)") 3 LLAMA3 initial_world
    = (Returned tt, w')
    /\ length (sent w') = 2%nat
    /\ file_get (lit "(neural_networks)_results.txt") (files w') =
       blocks no_wrap (firstn 1 two_papers)
         [Success PLAIN_TRANSLATION].
Proof.
  destruct (exception_cuts_report_short breaking finding no_wrap no_lower
              short_names_only (lit "(neural networks)") 3 LLAMA3
              (firstn 1 two_papers)
              [Success PLAIN_TRANSLATION]
              second_paper
              [] AttributeError initial_world eq_refl)
    as (w' & Hrun & Hsent & Hfile).
  - vm_compute. reflexivity.
  - exact breaking_settles.
  - vm_compute. reflexivity.
  - exists w'. split; [exact Hrun | split].
    + rewrite Hsent. reflexivity.
    + exact Hfile.
Defined.

(** X23. When the output file can be opened, a result whose block has a
    lone surrogate in it cuts the report short in the same way: the write
    raises [UnicodeEncodeError], the handler of the function takes it and
    the function returns, and the file holds the blocks of the papers before
    that one only. *)
Theorem unencodable_block_cuts_report_short :
  forall (ollama : endpoint)
         (arxiv_results : str -> N -> outcome (list paper))
         (textwrap_fill : str -> N -> str) (lower : str -> str)
         (openable : str -> bool)
         (query : str) (max_results : N) (model_name : str)
         (done : list paper) (outcomes : list TranslationResult)
         (p : paper) (rest : list paper) (r : TranslationResult) (w : world),
    arxiv_results query max_results = Returned (done ++ p :: rest) ->
    openable (output_filename lower query) = true ->
    settled ollama textwrap_fill model_name (length (sent w)) done outcomes ->
    fst (translate ollama (abstract_of p) model_name
           {| sent := sent w ++ map (fun p => translation_request (abstract_of p)
                                                model_name) done;
              files := files w; naps := naps w |})
      = Returned r ->
    encodable (output_content p (textwrap_fill (text_of r) 50)) = false ->
    exists w',
      search_and_translate_papers ollama arxiv_results textwrap_fill lower
        openable query max_results model_name w = (Returned tt, w')
      /\ sent w' =
         sent w ++ map (fun p => translation_request (abstract_of p) model_name)
                       (done ++ [p])
      /\ file_get (output_filename lower query) (files w') =
         blocks textwrap_fill done outcomes.
Proof.
  intros ollama arxiv_results textwrap_fill lower openable query max_results
    model_name done outcomes p rest r w Hsearch Hopen Hsettled Hret Hbad.
  apply (search_and_translate_papers_breaks ollama arxiv_results textwrap_fill
           lower openable query max_results model_name done outcomes p rest
           UnicodeEncodeError w Hsearch Hopen Hsettled).
  right. split; [reflexivity |]. exists r. split; [| exact Hbad].
  rewrite translate_run in Hret. cbn [fst sent] in Hret.
  now rewrite length_app, length_map in Hret.
Qed.

Lemma garbling_settles :
  settled garbling no_wrap LLAMA3 0 (firstn 1 two_papers)
    [Success PLAIN_TRANSLATION].
Proof.
  apply settled_cons; [vm_compute; reflexivity | vm_compute; reflexivity |].
  apply settled_nil.
Defined.

Lemma unencodable_block_cuts_report_short_witness :
  exists w',
    search_and_translate_papers garbling finding no_wrap no_lower
      short_names_only (lit "(neural networks)") 3 LLAMA3 initial_world
    = (Returned tt, w')
    /\ length (sent w') = 2%nat
    /\ file_get (lit "(neural_networks)_results.txt") (files w') =
       blocks no_wrap (firstn 1 two_papers)
         [Success PLAIN_TRANSLATION].
Proof.
  destruct (unencodable_block_cuts_report_short garbling finding no_wrap
              no_lower short_names_only (lit "(neural networks)") 3 LLAMA3
              (firstn 1 two_papers)
              [Success PLAIN_TRANSLATION]
              second_paper
              [] (Success [0xD800]) initial_world eq_refl)
    as (w' & Hrun & Hsent & Hfile).
  - vm_compute. reflexivity.
  - exact garbling_settles.
  - vm_compute. reflexivity.
  - vm_compute. reflexivity.
  - exists w'. split; [exact Hrun | split].
    + rewrite Hsent. reflexivity.
    + exact Hfile.
Defined.

(** X24. When the search finds papers and the output file cannot be opened
    (a query of 300 characters gives a name no common file system takes),
    [open] raises [OSError], the handler of the function takes it, and
    nothing else happens: no request is sent to the service, no file is
    made or changed, no pause is taken. *)
Theorem unopenable_file_no_effects :
  forall (ollama : endpoint)
         (arxiv_results : str -> N -> outcome (list paper))
         (textwrap_fill : str -> N -> str) (lower : str -> str)
         (openable : str -> bool)
         (query : str) (max_results : N) (model_name : str)
         (results : list paper) (w : world),
    arxiv_results query max_results = Returned results ->
    results <> [] ->
    openable (output_filename lower query) = false ->
    fst (file_open_w openable (output_filename lower query) w) = Raised OSError
    /\ search_and_translate_papers ollama arxiv_results textwrap_fill lower
         openable query max_results model_name w = (Returned tt, w).
Proof.
  intros ollama arxiv_results textwrap_fill lower openable query max_results
    model_name results w Hsearch Hne Hclosed.
  unfold search_and_translate_papers, try_except, bind, lift, file_open_w.
  rewrite Hsearch, Hclosed.
  destruct results as [| p ps]; [congruence |].
  split; reflexivity.
Qed.

Lemma unopenable_file_no_effects_witness :
  search_and_translate_papers flaky finding no_wrap no_lower short_names_only
    LONG_QUERY 3 LLAMA3 initial_world = (Returned tt, initial_world).
Proof.
  refine (proj2 (unopenable_file_no_effects flaky finding no_wrap no_lower
                   short_names_only LONG_QUERY 3 LLAMA3 two_papers
                   initial_world eq_refl _ _)).
  - discriminate.
  - vm_compute. reflexivity.
Defined.
